(** * CV assessment workflow: a shallow embedding and its properties

    The development follows the Python package [cv_assessment]:

    - [models/schemas.py]: the pydantic records, one module per class;
    - [utils/document_parser.py]: [parse_document];
    - [agents/final_scorer_agent.py]: [create_final_assessment];
    - [workflows/assessment_workflow.py]: the seven node functions, the
      graph built by [_build_workflow] and [run].

    Python floats are IEEE 754 binary64 numbers, modelled by Rocq's primitive
    floats.  The workflow state is a Python dict keyed by strings, modelled
    by a [gmap string value].  Exceptions are values of type [exc]; a
    computation that may raise returns a [result].

    What the package delegates to libraries is taken from an environment
    ([World] for the file system and the readers, [Agents] for the calls that
    reach the language model and the clock).  Calls to [logger] have no effect
    on the state or on a return value and are left out. *)

From Stdlib Require Import Floats ZArith.
From stdpp Require Import gmap strings list fin_maps.

(** ** Exceptions and results *)

(** A raised Python exception: the name of its class and [str(e)]. *)
Record exc := Exc { exc_type : string; exc_msg : string }.

Definition FileNotFoundError (msg : string) : exc := Exc "FileNotFoundError" msg.
Definition ValueError (msg : string) : exc := Exc "ValueError" msg.
Definition KeyError (msg : string) : exc := Exc "KeyError" msg.
Definition TypeError (msg : string) : exc := Exc "TypeError" msg.
Definition AttributeError (msg : string) : exc := Exc "AttributeError" msg.

Inductive result (A : Type) : Type :=
| Ok (a : A)
| Raise (e : exc).
Arguments Ok {A} a.
Arguments Raise {A} e.

(** Sequencing: the first exception raised ends the computation. *)
Global Instance result_bind : MBind result := fun A B k r =>
  match r with
  | Ok a => k a
  | Raise e => Raise e
  end.

(** ** models/schemas.py *)

Module Skill.
Record t := mk {
  name : string;
  skill_level : option string;
  years_experience : option float;
  category : option string }.
End Skill.

Module WorkExperience.
Record t := mk {
  company : string;
  position : string;
  start_date : option string;
  end_date : option string;
  duration_months : option Z;
  responsibilities : list string }.
End WorkExperience.

Module Education.
Record t := mk {
  institution : string;
  degree : string;
  field_of_study : option string;
  graduation_year : option Z;
  gpa : option float }.
End Education.

Module CVData.
Record t := mk {
  candidate_name : option string;
  email : option string;
  phone : option string;
  location : option string;
  summary : option string;
  skills : list Skill.t;
  work_experience : list WorkExperience.t;
  education : list Education.t;
  certifications : list string;
  languages : list string }.
End CVData.

Module JobDescription.
Record t := mk {
  job_title : string;
  company : option string;
  department : option string;
  location : option string;
  necessary_experince : list string;
  necessary_skills : list Skill.t;
  nice_to_have_experience : list string;
  nice_to_have_skills : list Skill.t;
  responsibilities : list string;
  education : list string;
  leadership : list string;
  soft_skills_requirement : list string;
  salary_range : option string }.
End JobDescription.

Module SkillMatchResult.
Record t := mk {
  matched_skills : list string;
  missing_skills : list string;
  partial_matches : list string;
  skill_gap_analysis : string;
  match_score : float }.
End SkillMatchResult.

Module ExperienceEvaluation.
Record t := mk {
  total_years_experience : float;
  relevant_years_experience : float;
  relevant_roles : list string;
  experience_level : string;
  key_achievements : list string;
  experience_score : float;
  analysis : string }.
End ExperienceEvaluation.

Module CultureFitAssessment.
Record t := mk {
  soft_skills_identified : list string;
  leadership_indicators : list string;
  culture_fit_score : float;
  notes : string }.
End CultureFitAssessment.

(** A [datetime], as a number of microseconds. *)
Definition datetime := Z.

Module AssessmentResult.
Record t := mk {
  cv_data : CVData.t;
  job_description : JobDescription.t;
  skill_match : SkillMatchResult.t;
  experience_evaluation : ExperienceEvaluation.t;
  culture_fit : CultureFitAssessment.t;
  overall_score : float;
  recommendation : string;
  strengths : list string;
  concerns : list string;
  summary : string;
  timestamp : datetime }.
End AssessmentResult.

(** The class [AssessmentDetails] local to [create_final_assessment]. *)
Module AssessmentDetails.
Record t := mk {
  recommendation : string;
  strengths : list string;
  concerns : list string;
  summary : string }.
End AssessmentDetails.

(** The schema's [Field(ge=0.0, le=1.0)] constraint on a score. *)
Definition in_unit_interval (x : float) : bool :=
  (PrimFloat.leb 0 x && PrimFloat.leb x 1)%bool.

(** ** Python values held by the workflow state *)

Inductive value :=
| VNone
| VStr (s : string)
| VCVData (c : CVData.t)
| VJobDescription (j : JobDescription.t)
| VSkillMatchResult (r : SkillMatchResult.t)
| VExperienceEvaluation (r : ExperienceEvaluation.t)
| VCultureFitAssessment (r : CultureFitAssessment.t)
| VAssessmentResult (r : AssessmentResult.t).

(** Python truth value: [None] and the empty string are falsy; a pydantic
    model defines neither [__bool__] nor [__len__] and is truthy. *)
Definition truthy (v : value) : bool :=
  match v with
  | VNone => false
  | VStr s => negb (String.eqb s "")
  | _ => true
  end.

(** A slot is populated when it holds something other than [None]. *)
Definition populated (v : value) : bool :=
  match v with
  | VNone => false
  | _ => true
  end.

(** [d.get(k)]: the value, or [None] when the key is absent. *)
Definition dict_get (d : gmap string value) (k : string) : value :=
  default VNone (d !! k).

(** [d[k]]: the value, or a [KeyError]. *)
Definition dict_getitem (d : gmap string value) (k : string) : result value :=
  match d !! k with
  | Some v => Ok v
  | None => Raise (KeyError k)
  end.

(** ** utils/document_parser.py *)

(** The file system and the format readers. [path_exists] is
    [Path.exists], [path_suffix] is [Path.suffix]; [parse_pdf], [parse_docx]
    and [parse_txt] are the three readers of the module, whose bodies are
    calls into pypdf, python-docx and [open]; [json_load_dumps] is the
    [json.load] followed by [json.dumps(data, indent=2)] of the last
    branch. *)
Record World := {
  path_exists : string -> bool;
  path_suffix : string -> string;
  parse_pdf : string -> result string;
  parse_docx : string -> result string;
  parse_txt : string -> result string;
  json_load_dumps : string -> result string }.

(** [str.lower] on ASCII letters. *)
Definition lower_ascii (c : Ascii.ascii) : Ascii.ascii :=
  let n := Ascii.nat_of_ascii c in
  if (Nat.leb 65 n && Nat.leb n 90)%bool then Ascii.ascii_of_nat (n + 32) else c.

Fixpoint lower (s : string) : string :=
  match s with
  | EmptyString => EmptyString
  | String c s' => String (lower_ascii c) (lower s')
  end.

Definition parse_document (w : World) (file_path : string) : result string :=
  if negb (path_exists w file_path) then
    Raise (FileNotFoundError ("File not found: " +:+ file_path))
  else
    let extension := lower (path_suffix w file_path) in
    if String.eqb extension ".pdf" then parse_pdf w file_path
    else if String.eqb extension ".docx" then parse_docx w file_path
    else if existsb (String.eqb extension) [".txt"; ".md"] then parse_txt w file_path
    else if String.eqb extension ".json" then json_load_dumps w file_path
    else Raise (ValueError ("Unsupported file format: " +:+ extension)).

(** The extensions [parse_document] has a branch for. *)
Definition recognized_extensions : list string :=
  [".pdf"; ".docx"; ".txt"; ".md"; ".json"].

(** The reader [parse_document] hands a recognized extension to. *)
Definition reader_for (w : World) (extension : string) : option (string -> result string) :=
  if String.eqb extension ".pdf" then Some (parse_pdf w)
  else if String.eqb extension ".docx" then Some (parse_docx w)
  else if String.eqb extension ".txt" then Some (parse_txt w)
  else if String.eqb extension ".md" then Some (parse_txt w)
  else if String.eqb extension ".json" then Some (json_load_dumps w)
  else None.

(** ** The agents *)

(** The methods of the six agents that reach the language model, and the
    clock.  Each method builds a prompt from its arguments and returns the
    model's validated answer or raises; it receives the Python objects the
    workflow passes, whatever they are.  [final_scorer_details] is the pair of
    calls [get_num_tokens] and [invoke_structured] of
    [create_final_assessment]: the prompts are built from the five records and
    the overall score.  [datetime_now] is [datetime.now()]. *)
Record Agents := {
  cv_parser_parse_cv : value -> result CVData.t;
  job_analyzer_analyze_job : value -> result JobDescription.t;
  skills_matcher_match_skills : value -> value -> result SkillMatchResult.t;
  experience_evaluator_evaluate_experience :
    value -> value -> result ExperienceEvaluation.t;
  culture_fit_assess_culture_fit : value -> value -> result CultureFitAssessment.t;
  final_scorer_details :
    CVData.t -> JobDescription.t -> SkillMatchResult.t ->
    ExperienceEvaluation.t -> CultureFitAssessment.t -> float ->
    result AssessmentDetails.t;
  datetime_now : datetime }.

Record Env := { world : World; agents : Agents }.

(** ** agents/final_scorer_agent.py *)

Module FinalScorerAgent.

(** The two weights, 0.4 and 0.2, as the binary64 numbers Python reads. *)
Definition w04 : float := 0x1.999999999999ap-2%float.
Definition w02 : float := 0x1.999999999999ap-3%float.

Definition create_final_assessment (a : Agents)
    (cv_data : CVData.t) (job_description : JobDescription.t)
    (skill_match : SkillMatchResult.t)
    (experience_eval : ExperienceEvaluation.t)
    (culture_fit : CultureFitAssessment.t) : result AssessmentResult.t :=
  let overall_score :=
    (SkillMatchResult.match_score skill_match * w04
     + ExperienceEvaluation.experience_score experience_eval * w04
     + CultureFitAssessment.culture_fit_score culture_fit * w02)%float in
  details ← final_scorer_details a cv_data job_description skill_match
              experience_eval culture_fit overall_score;
  Ok {| AssessmentResult.cv_data := cv_data;
        AssessmentResult.job_description := job_description;
        AssessmentResult.skill_match := skill_match;
        AssessmentResult.experience_evaluation := experience_eval;
        AssessmentResult.culture_fit := culture_fit;
        AssessmentResult.overall_score := overall_score;
        AssessmentResult.recommendation := AssessmentDetails.recommendation details;
        AssessmentResult.strengths := AssessmentDetails.strengths details;
        AssessmentResult.concerns := AssessmentDetails.concerns details;
        AssessmentResult.summary := AssessmentDetails.summary details;
        AssessmentResult.timestamp := datetime_now a |}.

End FinalScorerAgent.

(** ** workflows/assessment_workflow.py: the node functions *)

(** What a node function returns: a dict of updates, in insertion order. *)
Definition update_dict := list (string * value).

(** [parse_document(v)] for the object held by the state: [Path(v)] needs a
    string. *)
Definition parse_document_of (w : World) (v : value) : result string :=
  match v with
  | VStr file_path => parse_document w file_path
  | _ => Raise (TypeError "expected str, bytes or os.PathLike object")
  end.

(** Attribute access on the objects handed to [create_final_assessment]. *)
Definition as_cv_data (v : value) : result CVData.t :=
  match v with
  | VCVData c => Ok c
  | _ => Raise (AttributeError "candidate_name")
  end.

Definition as_job_description (v : value) : result JobDescription.t :=
  match v with
  | VJobDescription j => Ok j
  | _ => Raise (AttributeError "job_title")
  end.

Definition as_skill_match (v : value) : result SkillMatchResult.t :=
  match v with
  | VSkillMatchResult r => Ok r
  | _ => Raise (AttributeError "match_score")
  end.

Definition as_experience_eval (v : value) : result ExperienceEvaluation.t :=
  match v with
  | VExperienceEvaluation r => Ok r
  | _ => Raise (AttributeError "experience_score")
  end.

Definition as_culture_fit (v : value) : result CultureFitAssessment.t :=
  match v with
  | VCultureFitAssessment r => Ok r
  | _ => Raise (AttributeError "culture_fit_score")
  end.

Definition _load_documents (env : Env) (state : gmap string value) : result update_dict :=
  let updates : update_dict := [] in
  cv_file_path ← dict_getitem state "cv_file_path";
  updates ← (if truthy cv_file_path then
               cv_text ← parse_document_of (world env) cv_file_path;
               Ok (updates ++ [("cv_text", VStr cv_text)])
             else Ok updates);
  job_description_path ← dict_getitem state "job_description_path";
  updates ← (if truthy job_description_path then
               job_text ← parse_document_of (world env) job_description_path;
               Ok (updates ++ [("job_text", VStr job_text)])
             else Ok updates);
  Ok updates.

Definition _parse_cv (env : Env) (state : gmap string value) : result update_dict :=
  let cv_text := dict_get state "cv_text" in
  if negb (truthy cv_text) then Raise (ValueError "No CV text available")
  else
    cv_data ← cv_parser_parse_cv (agents env) cv_text;
    Ok [("cv_data", VCVData cv_data)].

Definition _analyze_job (env : Env) (state : gmap string value) : result update_dict :=
  let job_text := dict_get state "job_text" in
  if negb (truthy job_text) then Raise (ValueError "No job description text available")
  else
    job_description ← job_analyzer_analyze_job (agents env) job_text;
    Ok [("job_description", VJobDescription job_description)].

Definition _match_skills (env : Env) (state : gmap string value) : result update_dict :=
  let cv_data := dict_get state "cv_data" in
  let job_description := dict_get state "job_description" in
  if (negb (truthy cv_data) || negb (truthy job_description))%bool then
    Raise (ValueError "CV data or job description not available")
  else
    skill_match ← skills_matcher_match_skills (agents env) cv_data job_description;
    Ok [("skill_match", VSkillMatchResult skill_match)].

Definition _evaluate_experience (env : Env) (state : gmap string value) : result update_dict :=
  let cv_data := dict_get state "cv_data" in
  let job_description := dict_get state "job_description" in
  if (negb (truthy cv_data) || negb (truthy job_description))%bool then
    Raise (ValueError "CV data or job description not available")
  else
    experience_evaluation ←
      experience_evaluator_evaluate_experience (agents env) cv_data job_description;
    Ok [("experience_evaluation", VExperienceEvaluation experience_evaluation)].

Definition _assess_culture_fit (env : Env) (state : gmap string value) : result update_dict :=
  let cv_data := dict_get state "cv_data" in
  let job_description := dict_get state "job_description" in
  if (negb (truthy cv_data) || negb (truthy job_description))%bool then
    Raise (ValueError "CV data or job description not available")
  else
    culture_fit ← culture_fit_assess_culture_fit (agents env) cv_data job_description;
    Ok [("culture_fit", VCultureFitAssessment culture_fit)].

Definition _create_final_assessment (env : Env) (state : gmap string value)
    : result update_dict :=
  let cv_data := dict_get state "cv_data" in
  let job_description := dict_get state "job_description" in
  let skill_match := dict_get state "skill_match" in
  let experience_eval := dict_get state "experience_evaluation" in
  let culture_fit := dict_get state "culture_fit" in
  if negb (forallb truthy
             [cv_data; job_description; skill_match; experience_eval; culture_fit]) then
    Raise (ValueError "Not all assessment components available")
  else
    cv ← as_cv_data cv_data;
    job ← as_job_description job_description;
    sk ← as_skill_match skill_match;
    ex ← as_experience_eval experience_eval;
    cu ← as_culture_fit culture_fit;
    assessment_result ←
      FinalScorerAgent.create_final_assessment (agents env) cv job sk ex cu;
    Ok [("assessment_result", VAssessmentResult assessment_result)].

(** ** The graph (langgraph's [StateGraph]) *)

Definition node_fn := gmap string value -> result update_dict.

Record StateGraph := {
  nodes : list (string * node_fn);
  entry_point : option string;
  edges : list (string * string) }.

Definition END : string := "__end__".

Definition empty_graph : StateGraph :=
  {| nodes := []; entry_point := None; edges := [] |}.

Definition add_node (name : string) (f : node_fn) (g : StateGraph) : StateGraph :=
  {| nodes := nodes g ++ [(name, f)]; entry_point := entry_point g; edges := edges g |}.

Definition set_entry_point (name : string) (g : StateGraph) : StateGraph :=
  {| nodes := nodes g; entry_point := Some name; edges := edges g |}.

Definition add_edge (start_key end_key : string) (g : StateGraph) : StateGraph :=
  {| nodes := nodes g; entry_point := entry_point g;
     edges := edges g ++ [(start_key, end_key)] |}.

Definition _build_workflow (env : Env) : StateGraph :=
  let workflow := empty_graph in
  let workflow := add_node "load_documents" (_load_documents env) workflow in
  let workflow := add_node "parse_cv" (_parse_cv env) workflow in
  let workflow := add_node "analyze_job" (_analyze_job env) workflow in
  let workflow := add_node "match_skills" (_match_skills env) workflow in
  let workflow := add_node "evaluate_experience" (_evaluate_experience env) workflow in
  let workflow := add_node "assess_culture_fit" (_assess_culture_fit env) workflow in
  let workflow :=
    add_node "create_final_assessment" (_create_final_assessment env) workflow in
  let workflow := set_entry_point "load_documents" workflow in
  let workflow := add_edge "load_documents" "parse_cv" workflow in
  let workflow := add_edge "load_documents" "analyze_job" workflow in
  let workflow := add_edge "parse_cv" "match_skills" workflow in
  let workflow := add_edge "parse_cv" "evaluate_experience" workflow in
  let workflow := add_edge "parse_cv" "assess_culture_fit" workflow in
  let workflow := add_edge "analyze_job" "match_skills" workflow in
  let workflow := add_edge "analyze_job" "evaluate_experience" workflow in
  let workflow := add_edge "analyze_job" "assess_culture_fit" workflow in
  let workflow := add_edge "match_skills" "create_final_assessment" workflow in
  let workflow := add_edge "evaluate_experience" "create_final_assessment" workflow in
  let workflow := add_edge "assess_culture_fit" "create_final_assessment" workflow in
  let workflow := add_edge "create_final_assessment" END workflow in
  workflow.

(** ** Execution of a compiled graph (langgraph's [invoke])

    The package leaves the execution to langgraph, whose compiled graphs run
    in supersteps: the nodes of a superstep all read the state as it stands
    when the superstep starts and run concurrently; when all have returned,
    their updates are published to the state and the nodes their outgoing
    edges lead to form the next superstep.  A state key declared without a
    reducer receives at most one value per superstep.  The first exception a
    node raises ends the execution and is raised by [invoke]; the updates of
    that superstep are not published.  The execution stops when a superstep
    triggers no node, or with an error after 25 supersteps. *)

Definition InvalidUpdateError (key : string) : exc :=
  Exc "InvalidUpdateError"
      ("At key '" +:+ key +:+ "': Can receive only one value per step.").

Definition GraphRecursionError : exc :=
  Exc "GraphRecursionError" "Recursion limit of 25 reached".

Definition recursion_limit : nat := 25.

(** What an observer of an execution sees. *)
Inductive event :=
| Dispatched (name : string) (view : gmap string value)
| Returned (name : string) (u : update_dict)
| Raised (name : string) (e : exc)
| Wrote (name : string) (key : string) (old new : value).

Inductive outcome :=
| Completed
| NodeFailed (name : string) (e : exc)
| EngineFailed (e : exc).

Record execution := {
  exec_outcome : outcome;
  exec_state : gmap string value;
  exec_trace : list event }.

Definition node_names (g : StateGraph) : list string := map fst (nodes g).

Definition find_node (g : StateGraph) (name : string) : option node_fn :=
  snd <$> List.find (fun p => String.eqb (fst p) name) (nodes g).

Definition has_edge (g : StateGraph) (start_key end_key : string) : bool :=
  existsb (fun e => String.eqb (fst e) start_key && String.eqb (snd e) end_key)%bool
          (edges g).

(** The nodes that an edge from a node of [ran] leads to. *)
Definition triggered (g : StateGraph) (ran : list string) : list string :=
  List.filter (fun n => existsb (fun s => has_edge g s n) ran) (node_names g).

(** The order in which the concurrent tasks of a superstep complete is not
    fixed: a schedule picks, at each superstep, one of the permutations of the
    tasks. *)
Definition schedule := nat -> nat.

Definition completion_order (sched : schedule) (step : nat) (active : list string)
    : list string :=
  default active (permutations active !! sched step).

Inductive tasks_result :=
| AllReturned (outs : list (string * update_dict))
| OneRaised (name : string) (e : exc).

(** Running the node called [name] on its view of the state. *)
Definition run_node (g : StateGraph) (name : string) (view : gmap string value)
    : result update_dict :=
  match find_node g name with
  | Some f => f view
  | None => Raise (KeyError name)
  end.

(** The tasks complete in [order]; the first exception ends the superstep. *)
Fixpoint run_tasks (g : StateGraph) (order : list string) (view : gmap string value)
    : list event * tasks_result :=
  match order with
  | [] => ([], AllReturned [])
  | name :: rest =>
      match run_node g name view with
      | Raise e => ([Raised name e], OneRaised name e)
      | Ok u =>
          let '(evs, r) := run_tasks g rest view in
          (Returned name u :: evs,
           match r with
           | AllReturned outs => AllReturned ((name, u) :: outs)
           | OneRaised n e => OneRaised n e
           end)
      end
  end.

(** Publishing the updates of one node; [seen] are the keys already written in
    this superstep. *)
Fixpoint apply_updates (name : string) (u : update_dict) (st : gmap string value)
    (seen : list string) : result (gmap string value * list string * list event) :=
  match u with
  | [] => Ok (st, seen, [])
  | (k, v) :: u' =>
      if existsb (String.eqb k) seen then Raise (InvalidUpdateError k)
      else
        r ← apply_updates name u' (<[k := v]> st) (k :: seen);
        let '(st', seen', evs) := r in
        Ok (st', seen', Wrote name k (dict_get st k) v :: evs)
  end.

Fixpoint apply_writes (outs : list (string * update_dict)) (st : gmap string value)
    (seen : list string) : result (gmap string value * list event) :=
  match outs with
  | [] => Ok (st, [])
  | (name, u) :: outs' =>
      r ← apply_updates name u st seen;
      let '(st', seen', evs) := r in
      r' ← apply_writes outs' st' seen';
      let '(st'', evs') := r' in
      Ok (st'', (evs ++ evs'))
  end.

Inductive step_result :=
| StepOk (st' : gmap string value) (evs : list event)
| StepNodeFailed (name : string) (e : exc) (evs : list event)
| StepEngineFailed (e : exc) (evs : list event).

(** One superstep: the [active] nodes are dispatched on [st], complete in
    [order], and their updates are published. *)
Definition superstep (g : StateGraph) (order active : list string)
    (st : gmap string value) : step_result :=
  let dispatched := map (fun n => Dispatched n st) active in
  match run_tasks g order st with
  | (evs, OneRaised n e) => StepNodeFailed n e (dispatched ++ evs)
  | (evs, AllReturned outs) =>
      match apply_writes outs st [] with
      | Raise e => StepEngineFailed e (dispatched ++ evs)
      | Ok (st', wevs) => StepOk st' (dispatched ++ evs ++ wevs)
      end
  end.

Fixpoint pregel_loop (g : StateGraph) (sched : schedule) (fuel step : nat)
    (active : list string) (st : gmap string value) (tr : list event) : execution :=
  match active with
  | [] => {| exec_outcome := Completed; exec_state := st; exec_trace := tr |}
  | _ :: _ =>
      match fuel with
      | O => {| exec_outcome := EngineFailed GraphRecursionError;
                exec_state := st; exec_trace := tr |}
      | S fuel' =>
          match superstep g (completion_order sched step active) active st with
          | StepOk st' evs =>
              pregel_loop g sched fuel' (S step) (triggered g active) st'
                          (tr ++ evs)
          | StepNodeFailed n e evs =>
              {| exec_outcome := NodeFailed n e; exec_state := st;
                 exec_trace := (tr ++ evs) |}
          | StepEngineFailed e evs =>
              {| exec_outcome := EngineFailed e; exec_state := st;
                 exec_trace := (tr ++ evs) |}
          end
      end
  end.

Definition invoke (g : StateGraph) (sched : schedule) (input : gmap string value)
    : execution :=
  pregel_loop g sched recursion_limit 0 (option_list (entry_point g)) input [].

(** ** workflows/assessment_workflow.py: [run] *)

(** A path argument of [run]: a string or [None] ([str | None] in
    [WorkflowState]). *)
Definition path_value (p : option string) : value :=
  match p with
  | Some s => VStr s
  | None => VNone
  end.

Definition initial_state (cv_file_path job_description_path : option string)
    : gmap string value :=
  list_to_map
    [("cv_file_path", path_value cv_file_path);
     ("job_description_path", path_value job_description_path);
     ("cv_text", VNone);
     ("job_text", VNone);
     ("cv_data", VNone);
     ("job_description", VNone);
     ("skill_match", VNone);
     ("experience_evaluation", VNone);
     ("culture_fit", VNone);
     ("assessment_result", VNone)].

(** The execution [run] starts. *)
Definition workflow_invoke (env : Env) (sched : schedule)
    (cv_file_path job_description_path : option string) : execution :=
  invoke (_build_workflow env) sched (initial_state cv_file_path job_description_path).

(** [run] returns the assessment result, or [None] when the execution raised. *)
Definition run (env : Env) (sched : schedule)
    (cv_file_path job_description_path : option string) : value :=
  let final_state := workflow_invoke env sched cv_file_path job_description_path in
  match exec_outcome final_state with
  | Completed => dict_get (exec_state final_state) "assessment_result"
  | NodeFailed _ _ | EngineFailed _ => VNone
  end.

(** * Vocabulary of the properties *)

(** Publishing a dict of updates: each key receives its value. *)
Definition put (u : update_dict) (s : gmap string value) : gmap string value :=
  foldl (fun s kv => <[kv.1 := kv.2]> s) s u.
(** The updates of the nodes of a superstep, one after the other. *)
Definition all_updates (outs : list (string * update_dict)) : update_dict :=
  outs ≫= snd.
(** The completion events of nodes that returned. *)
Definition returned (outs : list (string * update_dict)) : list event :=
  (fun o => Returned o.1 o.2) <$> outs.
(** The publication events of one node's updates over the state [s] the
    superstep started from. *)
Definition wrote (s : gmap string value) (name : string) (u : update_dict) : list event :=
  (fun kv => Wrote name kv.1 (dict_get s kv.1) kv.2) <$> u.
Definition wrote_all (s : gmap string value) (outs : list (string * update_dict))
    : list event :=
  outs ≫= (fun o => wrote s o.1 o.2).
(** The events of a task that completes. *)
Definition is_task_event (ev : event) : Prop :=
  match ev with
  | Returned _ _ | Raised _ _ => True
  | Dispatched _ _ | Wrote _ _ _ _ => False
  end.

(** What one superstep over the nodes [active] does from the state [s],
    whatever the order of completion: either every node returned, and the
    state is the old one with all the updates published; or some node raised,
    and nothing was published. *)
Inductive stage_spec (g : StateGraph) (active : list string) (s : gmap string value)
    : step_result → Prop :=
| stage_completed outs rest :
    outs.*1 = active →
    Forall (fun o => run_node g o.1 s = Ok o.2) outs →
    NoDup ((all_updates outs).*1) →
    rest ≡ₚ returned outs ++ wrote_all s outs →
    stage_spec g active s
      (StepOk (put (all_updates outs) s) (map (fun n => Dispatched n s) active ++ rest))
| stage_failed n e rest :
    n ∈ active → run_node g n s = Raise e →
    Forall is_task_event rest → Raised n e ∈ rest →
    stage_spec g active s
      (StepNodeFailed n e (map (fun n => Dispatched n s) active ++ rest)).

(** The successive sets of active nodes, from the entry point on. *)
Fixpoint levels (g : StateGraph) (fuel : nat) (active : list string) : list (list string) :=
  match active with
  | [] => []
  | _ :: _ =>
      match fuel with
      | O => []
      | S fuel' => active :: levels g fuel' (triggered g active)
      end
  end.

(** The graph runs out of active nodes within the recursion limit. *)
Fixpoint within_limit (g : StateGraph) (fuel : nat) (active : list string) : bool :=
  match active with
  | [] => true
  | _ :: _ =>
      match fuel with
      | O => false
      | S fuel' => within_limit g fuel' (triggered g active)
      end
  end.

(** An execution as a sequence of supersteps over the given stages. *)
Inductive stages_spec (g : StateGraph)
    : list (list string) → gmap string value → execution → Prop :=
| stages_done s :
    stages_spec g [] s {| exec_outcome := Completed; exec_state := s; exec_trace := [] |}
| stages_step active rest s s' evs ex :
    stage_spec g active s (StepOk s' evs) →
    stages_spec g rest s' ex →
    stages_spec g (active :: rest) s
      {| exec_outcome := exec_outcome ex; exec_state := exec_state ex;
         exec_trace := evs ++ exec_trace ex |}
| stages_fail active rest s n e evs :
    stage_spec g active s (StepNodeFailed n e evs) →
    stages_spec g (active :: rest) s
      {| exec_outcome := NodeFailed n e; exec_state := s; exec_trace := evs |}.

(** The nodes of a stage write different keys. *)
Definition disjoint_outputs (g : StateGraph) (active : list string) : Prop :=
  ∀ s outs, outs.*1 = active → Forall (fun o => run_node g o.1 s = Ok o.2) outs →
            NoDup ((all_updates outs).*1).

(** The four stages of the workflow graph. *)
Definition stage0 : list string := ["load_documents"].
Definition stage1 : list string := ["parse_cv"; "analyze_job"].
Definition stage2 : list string :=
  ["match_skills"; "evaluate_experience"; "assess_culture_fit"].
Definition stage3 : list string := ["create_final_assessment"].
Definition workflow_stages : list (list string) := [stage0; stage1; stage2; stage3].

(** What [_load_documents] adds for one document. *)
Definition loaded (w : World) (key : string) (path : value) (u : update_dict) : Prop :=
  (truthy path = false ∧ u = []) ∨
  (∃ text, truthy path = true ∧ parse_document_of w path = Ok text ∧
           u = [(key, VStr text)]).

(** ** The stages run one after the other

    The algorithm of the workflow read sequentially: the nodes of a stage run
    in the order of their declaration on the state the stage starts from; when
    all returned, their updates are published and the next stage starts;
    the first stage with a node that raises ends the run. *)

Fixpoint collect (g : StateGraph) (active : list string) (s : gmap string value)
    : option (list (string * update_dict)) :=
  match active with
  | [] => Some []
  | name :: rest =>
      match run_node g name s with
      | Ok u => (fun outs => (name, u) :: outs) <$> collect g rest s
      | Raise _ => None
      end
  end.

(** The boolean tells whether every stage completed. *)
Fixpoint run_stages (g : StateGraph) (stages : list (list string))
    (s : gmap string value) : bool * gmap string value :=
  match stages with
  | [] => (true, s)
  | active :: rest =>
      match collect g active s with
      | Some outs => run_stages g rest (put (all_updates outs) s)
      | None => (false, s)
      end
  end.

(** ** The log of writes of a trace: node, key, and the value replaced. *)
Definition write_of (ev : event) : option (string * string * value) :=
  match ev with
  | Wrote name key old _ => Some (name, key, old)
  | _ => None
  end.

Definition write_log (tr : list event) : list (string * string * value) :=
  omap write_of tr.

Definition stage_writes (s : gmap string value) (outs : list (string * update_dict))
    : list (string * string * value) :=
  outs ≫= (fun o => (fun kv => (o.1, kv.1, dict_get s kv.1)) <$> o.2).

Fixpoint writes_of_stages (g : StateGraph) (stages : list (list string))
    (s : gmap string value) : list (string * string * value) :=
  match stages with
  | [] => []
  | active :: rest =>
      match collect g active s with
      | Some outs =>
          stage_writes s outs ++ writes_of_stages g rest (put (all_updates outs) s)
      | None => []
      end
  end.

(** ** The steps of the workflow as relations between states *)

(** Documents loaded: the texts that [_load_documents] returned are published. *)
Definition step_load (env : Env) (s s' : gmap string value) : Prop :=
  ∃ u, _load_documents env s = Ok u ∧ s' = put u s.

(** Both extractions returned, and their records are published. *)
Definition step_parse (env : Env) (s s' : gmap string value) : Prop :=
  ∃ c j,
    truthy (dict_get s "cv_text") = true ∧
    cv_parser_parse_cv (agents env) (dict_get s "cv_text") = Ok c ∧
    truthy (dict_get s "job_text") = true ∧
    job_analyzer_analyze_job (agents env) (dict_get s "job_text") = Ok j ∧
    s' = <["job_description" := VJobDescription j]> (<["cv_data" := VCVData c]> s).

(** The three evaluations returned, and their records are published. *)
Definition step_evaluate (env : Env) (s s' : gmap string value) : Prop :=
  ∃ a b d,
    truthy (dict_get s "cv_data") = true ∧
    truthy (dict_get s "job_description") = true ∧
    skills_matcher_match_skills (agents env) (dict_get s "cv_data")
      (dict_get s "job_description") = Ok a ∧
    experience_evaluator_evaluate_experience (agents env) (dict_get s "cv_data")
      (dict_get s "job_description") = Ok b ∧
    culture_fit_assess_culture_fit (agents env) (dict_get s "cv_data")
      (dict_get s "job_description") = Ok d ∧
    s' = <["culture_fit" := VCultureFitAssessment d]>
           (<["experience_evaluation" := VExperienceEvaluation b]>
              (<["skill_match" := VSkillMatchResult a]> s)).

(** The aggregation returned, and the report is published. *)
Definition step_final (env : Env) (s s' : gmap string value) : Prop :=
  ∃ cv job sk ex cu r,
    dict_get s "cv_data" = VCVData cv ∧
    dict_get s "job_description" = VJobDescription job ∧
    dict_get s "skill_match" = VSkillMatchResult sk ∧
    dict_get s "experience_evaluation" = VExperienceEvaluation ex ∧
    dict_get s "culture_fit" = VCultureFitAssessment cu ∧
    FinalScorerAgent.create_final_assessment (agents env) cv job sk ex cu = Ok r ∧
    s' = <["assessment_result" := VAssessmentResult r]> s.

(** ** The graph read as a dependency relation *)

(** The keys of the dict each node function returns. *)
Definition outputs (name : string) : list string :=
  if String.eqb name "load_documents" then ["cv_text"; "job_text"]
  else if String.eqb name "parse_cv" then ["cv_data"]
  else if String.eqb name "analyze_job" then ["job_description"]
  else if String.eqb name "match_skills" then ["skill_match"]
  else if String.eqb name "evaluate_experience" then ["experience_evaluation"]
  else if String.eqb name "assess_culture_fit" then ["culture_fit"]
  else if String.eqb name "create_final_assessment" then ["assessment_result"]
  else [].

(** The slots each node function reads with [state.get]. *)
Definition inputs (name : string) : list string :=
  if String.eqb name "parse_cv" then ["cv_text"]
  else if String.eqb name "analyze_job" then ["job_text"]
  else if String.eqb name "match_skills" then ["cv_data"; "job_description"]
  else if String.eqb name "evaluate_experience" then ["cv_data"; "job_description"]
  else if String.eqb name "assess_culture_fit" then ["cv_data"; "job_description"]
  else if String.eqb name "create_final_assessment" then
    ["cv_data"; "job_description"; "skill_match"; "experience_evaluation"; "culture_fit"]
  else [].

(** The nodes with an edge to [name]. *)
Definition predecessors (g : StateGraph) (name : string) : list string :=
  List.filter (fun p => has_edge g p name) (node_names g).

(** The nodes reached from [frontier] along the edges, in at most [fuel] steps. *)
Fixpoint reachable (g : StateGraph) (fuel : nat) (frontier : list string) : list string :=
  match fuel with
  | O => []
  | S fuel' =>
      let next := triggered g frontier in
      next ++ reachable g fuel' next
  end.

Definition downstream (g : StateGraph) (name : string) : list string :=
  reachable g (length (nodes g)) [name].

(** The states the sequential reading goes through, stage after stage. *)
Definition reached (env : Env) (s0 : gmap string value) (k : nat)
    (s : gmap string value) : Prop :=
  match k with
  | 0 => s = s0
  | 1 => step_load env s0 s
  | 2 => ∃ s1, step_load env s0 s1 ∧ step_parse env s1 s
  | 3 => ∃ s1 s2, step_load env s0 s1 ∧ step_parse env s1 s2 ∧ step_evaluate env s2 s
  | _ => ∃ s1 s2 s3, step_load env s0 s1 ∧ step_parse env s1 s2 ∧
                     step_evaluate env s2 s3 ∧ step_final env s3 s
  end.

(** ** Stub collaborators, for concrete runs *)

(** [Path.suffix] of a file name without directories: from the last dot on,
    unless the dot is the first or the last character. *)
Fixpoint last_dot (s : string) : option string :=
  match s with
  | EmptyString => None
  | String c s' =>
      match last_dot s' with
      | Some suffix => Some suffix
      | None => if String.eqb (String c "") "." then Some s else None
      end
  end.

Definition name_suffix (name : string) : string :=
  match name with
  | EmptyString => ""
  | String _ rest =>
      match last_dot rest with
      | Some suffix => if String.eqb suffix "." then "" else suffix
      | None => ""
      end
  end.

(** A file system holding the given plain-text files. *)
Definition text_files (files : list (string * string)) : World :=
  {| path_exists := fun p => existsb (fun f => String.eqb f.1 p) files;
     path_suffix := name_suffix;
     parse_pdf := fun _ => Raise (Exc "PdfReadError" "EOF marker not found");
     parse_docx := fun _ => Raise (Exc "PackageNotFoundError" "Package not found");
     parse_txt := fun p =>
       match List.find (fun f => String.eqb f.1 p) files with
       | Some f => Ok f.2
       | None => Raise (FileNotFoundError p)
       end;
     json_load_dumps := fun _ =>
       Raise (Exc "JSONDecodeError" "Expecting value: line 1 column 1 (char 0)") |}.

Definition stub_cv : CVData.t :=
  CVData.mk (Some "Jane Doe") None None None None
    [Skill.mk "Python" None None None; Skill.mk "SQL" None None None] [] [] [] [].

Definition stub_job : JobDescription.t :=
  JobDescription.mk "Data Scientist" None None None []
    [Skill.mk "Python" None None None; Skill.mk "Spark" None None None]
    [] [] [] [] [] [] None.

(** 0.9, 0.8 and 0.7, as the binary64 numbers Python reads. *)
Definition f09 : float := 0x1.ccccccccccccdp-1%float.
Definition f08 : float := 0x1.999999999999ap-1%float.
Definition f07 : float := 0x1.6666666666666p-1%float.
(** 0.82, likewise. *)
Definition f082 : float := 0x1.a3d70a3d70a3dp-1%float.

(** Agents that return fixed records: scores 0.9, 0.8 and 0.7, and the label
    the language model is taken to answer. *)
Definition stub_agents (label : string) : Agents :=
  {| cv_parser_parse_cv := fun _ => Ok stub_cv;
     job_analyzer_analyze_job := fun _ => Ok stub_job;
     skills_matcher_match_skills := fun _ _ =>
       Ok (SkillMatchResult.mk ["Python"] ["Spark"] [] "one of two" f09);
     experience_evaluator_evaluate_experience := fun _ _ =>
       Ok (ExperienceEvaluation.mk 5 4 [] "senior" [] f08 "relevant");
     culture_fit_assess_culture_fit := fun _ _ =>
       Ok (CultureFitAssessment.mk [] [] f07 "fits");
     final_scorer_details := fun _ _ _ _ _ _ =>
       Ok (AssessmentDetails.mk label ["skills"] ["gaps"] "summary");
     datetime_now := 0%Z |}.

Definition stub_files : list (string * string) :=
  [("cv.txt", "Jane Doe, Python, SQL"); ("job.txt", "Data Scientist: Python, Spark")].

Definition stub_env (label : string) : Env :=
  {| world := text_files stub_files; agents := stub_agents label |}.

(** The same, with a job analyzer whose extraction fails. *)
Definition extraction_failure : exc :=
  Exc "ExtractionFailure" "job description could not be validated".

Definition failing_job_env : Env :=
  {| world := text_files stub_files;
     agents :=
       {| cv_parser_parse_cv := fun _ => Ok stub_cv;
          job_analyzer_analyze_job := fun _ => Raise extraction_failure;
          skills_matcher_match_skills :=
            skills_matcher_match_skills (stub_agents "strong_match");
          experience_evaluator_evaluate_experience :=
            experience_evaluator_evaluate_experience (stub_agents "strong_match");
          culture_fit_assess_culture_fit :=
            culture_fit_assess_culture_fit (stub_agents "strong_match");
          final_scorer_details := final_scorer_details (stub_agents "strong_match");
          datetime_now := 0%Z |} |}.

(** The tasks of every superstep complete in the order of declaration. *)
Definition in_order : schedule := fun _ => 0.
(** The tasks of every superstep complete in the last of the possible orders. *)
Definition reversed : schedule := fun step =>
  match step with
  | 1 => 1
  | 2 => 5
  | _ => 0
  end.

(** The same, with a CV parser whose extraction fails. *)
Definition failing_cv_env : Env :=
  {| world := text_files stub_files;
     agents :=
       {| cv_parser_parse_cv := fun _ => Raise extraction_failure;
          job_analyzer_analyze_job := fun _ => Ok stub_job;
          skills_matcher_match_skills :=
            skills_matcher_match_skills (stub_agents "strong_match");
          experience_evaluator_evaluate_experience :=
            experience_evaluator_evaluate_experience (stub_agents "strong_match");
          culture_fit_assess_culture_fit :=
            culture_fit_assess_culture_fit (stub_agents "strong_match");
          final_scorer_details := final_scorer_details (stub_agents "strong_match");
          datetime_now := 0%Z |} |}.

(** ** The slots of the run state *)

(** The keys of [WorkflowState] that the node functions write. *)
Definition slots : list string :=
  ["cv_text"; "job_text"; "cv_data"; "job_description"; "skill_match";
   "experience_evaluation"; "culture_fit"; "assessment_result"].





(** ** Two runs that differ in the clock *)

Definition set_clock (now : datetime) (env : Env) : Env :=
  {| world := world env;
     agents :=
       {| cv_parser_parse_cv := cv_parser_parse_cv (agents env);
          job_analyzer_analyze_job := job_analyzer_analyze_job (agents env);
          skills_matcher_match_skills := skills_matcher_match_skills (agents env);
          experience_evaluator_evaluate_experience :=
            experience_evaluator_evaluate_experience (agents env);
          culture_fit_assess_culture_fit := culture_fit_assess_culture_fit (agents env);
          final_scorer_details := final_scorer_details (agents env);
          datetime_now := now |} |}.

Definition set_timestamp (t : datetime) (r : AssessmentResult.t) : AssessmentResult.t :=
  {| AssessmentResult.cv_data := AssessmentResult.cv_data r;
     AssessmentResult.job_description := AssessmentResult.job_description r;
     AssessmentResult.skill_match := AssessmentResult.skill_match r;
     AssessmentResult.experience_evaluation := AssessmentResult.experience_evaluation r;
     AssessmentResult.culture_fit := AssessmentResult.culture_fit r;
     AssessmentResult.overall_score := AssessmentResult.overall_score r;
     AssessmentResult.recommendation := AssessmentResult.recommendation r;
     AssessmentResult.strengths := AssessmentResult.strengths r;
     AssessmentResult.concerns := AssessmentResult.concerns r;
     AssessmentResult.summary := AssessmentResult.summary r;
     AssessmentResult.timestamp := t |}.

(** A slot value with the timestamp of a report blanked. *)
Definition erase_timestamp (v : value) : value :=
  match v with
  | VAssessmentResult r => VAssessmentResult (set_timestamp 0%Z r)
  | _ => v
  end.

(** ** References that load *)

(** A reference [_load_documents] gets through: it is empty or [None], and
    skipped, or [parse_document] returns its text. *)
Definition loads (w : World) (p : option string) : Prop :=
  truthy (path_value p) = false ∨
  ∃ text, parse_document_of w (path_value p) = Ok text.

(** A file system with one file, named as a JSON document, whose content is
    not JSON. *)
Definition json_world : World := text_files [("job.json", "title: Data Scientist")].

(** ** Scores as binary64 numbers *)

(** [f] is zero, or a positive number of the format that is at most the
    number of mantissa [mt] and exponent [et]. *)
Definition below (mt : positive) (et : Z) (f : spec_float) : Prop :=
  match f with
  | S754_zero _ => True
  | S754_finite false m e => (e < et)%Z ∨ (e = et ∧ (Zpos m ≤ Zpos mt)%Z)
  | _ => False
  end.

(** What [k] one-bit shifts of the mantissa [M] leave: the quotient by
    [2 ^ k], and a round bit that is set only when the remainder is at least
    half of [2 ^ k]. *)
Definition shr_inv (M : Z) (k : Z) (mrs : shr_record) : Prop :=
  (0 ≤ shr_m mrs)%Z ∧
  (shr_m mrs * 2 ^ k ≤ M)%Z ∧ (M < (shr_m mrs + 1) * 2 ^ k)%Z ∧
  (shr_r mrs = true → 2 ^ k ≤ 2 * (M - shr_m mrs * 2 ^ k))%Z.

(** The three records the stub evaluators return. *)
Definition stub_skill_match : SkillMatchResult.t :=
  SkillMatchResult.mk ["Python"] ["Spark"] [] "one of two" f09.
Definition stub_experience : ExperienceEvaluation.t :=
  ExperienceEvaluation.mk 5 4 [] "senior" [] f08 "relevant".
Definition stub_culture_fit : CultureFitAssessment.t :=
  CultureFitAssessment.mk [] [] f07 "fits".

(** ** The log of dispatches of a trace *)
Definition dispatch_of (ev : event) : option string :=
  match ev with
  | Dispatched name _ => Some name
  | _ => None
  end.

Definition dispatch_log (tr : list event) : list string := omap dispatch_of tr.


(** Collaborators whose two extractions both fail, each with its own error. *)
Definition rate_limited : exc := Exc "ProviderError" "rate limit exceeded".

Definition failing_both_env : Env :=
  {| world := text_files stub_files;
     agents :=
       {| cv_parser_parse_cv := fun _ => Raise extraction_failure;
          job_analyzer_analyze_job := fun _ => Raise rate_limited;
          skills_matcher_match_skills :=
            skills_matcher_match_skills (stub_agents "strong_match");
          experience_evaluator_evaluate_experience :=
            experience_evaluator_evaluate_experience (stub_agents "strong_match");
          culture_fit_assess_culture_fit :=
            culture_fit_assess_culture_fit (stub_agents "strong_match");
          final_scorer_details := final_scorer_details (stub_agents "strong_match");
          datetime_now := 0%Z |} |}.

(** Collaborators whose skills matcher fails. *)
Definition failing_matcher_env : Env :=
  {| world := text_files stub_files;
     agents :=
       {| cv_parser_parse_cv := fun _ => Ok stub_cv;
          job_analyzer_analyze_job := fun _ => Ok stub_job;
          skills_matcher_match_skills := fun _ _ => Raise rate_limited;
          experience_evaluator_evaluate_experience :=
            experience_evaluator_evaluate_experience (stub_agents "strong_match");
          culture_fit_assess_culture_fit :=
            culture_fit_assess_culture_fit (stub_agents "strong_match");
          final_scorer_details := final_scorer_details (stub_agents "strong_match");
          datetime_now := 0%Z |} |}.

(** ** Events of a trace *)

(** An event other than the exception of a node. *)
Definition not_raised (ev : event) : Prop :=
  match ev with
  | Raised _ _ => False
  | _ => True
  end.

(** ** The causes of a failure *)

(** What made the node [n] raise [e] on the state [s] of a run over the
    references [cv] and [job]: a document that could not be read, a text
    that is missing or empty, or a collaborator that raised. *)
Definition failure_cause (env : Env) (cv job : option string)
    (s : gmap string value) (n : string) (e : exc) : Prop :=
  (n = "load_documents" ∧
   ((truthy (path_value cv) = true ∧
     parse_document_of (world env) (path_value cv) = Raise e) ∨
    (loads (world env) cv ∧ truthy (path_value job) = true ∧
     parse_document_of (world env) (path_value job) = Raise e))) ∨
  (n = "parse_cv" ∧
   ((truthy (dict_get s "cv_text") = false ∧ e = ValueError "No CV text available") ∨
    (truthy (dict_get s "cv_text") = true ∧
     cv_parser_parse_cv (agents env) (dict_get s "cv_text") = Raise e))) ∨
  (n = "analyze_job" ∧
   ((truthy (dict_get s "job_text") = false ∧
     e = ValueError "No job description text available") ∨
    (truthy (dict_get s "job_text") = true ∧
     job_analyzer_analyze_job (agents env) (dict_get s "job_text") = Raise e))) ∨
  (∃ c j,
     dict_get s "cv_data" = VCVData c ∧
     dict_get s "job_description" = VJobDescription j ∧
     ((n = "match_skills" ∧
       skills_matcher_match_skills (agents env) (VCVData c) (VJobDescription j)
         = Raise e) ∨
      (n = "evaluate_experience" ∧
       experience_evaluator_evaluate_experience (agents env) (VCVData c)
         (VJobDescription j) = Raise e) ∨
      (n = "assess_culture_fit" ∧
       culture_fit_assess_culture_fit (agents env) (VCVData c) (VJobDescription j)
         = Raise e))) ∨
  (n = "create_final_assessment" ∧
   ∃ c j a b d,
     dict_get s "cv_data" = VCVData c ∧
     dict_get s "job_description" = VJobDescription j ∧
     dict_get s "skill_match" = VSkillMatchResult a ∧
     dict_get s "experience_evaluation" = VExperienceEvaluation b ∧
     dict_get s "culture_fit" = VCultureFitAssessment d ∧
     FinalScorerAgent.create_final_assessment (agents env) c j a b d = Raise e).

(** * The execution engine *)

Lemma dict_get_insert_ne (s : gmap string value) k k' v :
  k ≠ k' → dict_get (<[k := v]> s) k' = dict_get s k'.
Proof. intros H. unfold dict_get. by rewrite lookup_insert_ne. Qed.

Lemma dict_get_insert_eq (s : gmap string value) k v :
  dict_get (<[k := v]> s) k = v.
Proof. unfold dict_get. by rewrite lookup_insert_eq. Qed.

Lemma existsb_eqb_false (k : string) (seen : list string) :
  k ∉ seen → existsb (String.eqb k) seen = false.
Proof.
  induction seen as [|x seen IH]; intros H; [done|].
  apply not_elem_of_cons in H as [Hne Hni]. simpl.
  rewrite (proj2 (String.eqb_neq k x)) by done. by apply IH.
Qed.

Lemma apply_updates_spec name u s0 s seen :
  (∀ k, k ∉ seen → dict_get s k = dict_get s0 k) →
  NoDup (u.*1) → (∀ k, k ∈ u.*1 → k ∉ seen) →
  apply_updates name u s seen = Ok (put u s, reverse (u.*1) ++ seen, wrote s0 name u).
Proof.
  revert s seen. induction u as [|[k v] u IH]; intros s seen Hagree Hnd Hfresh; [done|].
  apply NoDup_cons in Hnd as [Hk Hnd]. simpl.
  rewrite existsb_eqb_false by (apply Hfresh; left).
  rewrite (IH (<[k := v]> s) (k :: seen)); [| |done|].
  - simpl. rewrite Hagree by (apply Hfresh; left).
    by rewrite reverse_cons, <- app_assoc.
  - intros k' Hk'. apply not_elem_of_cons in Hk' as [Hne Hk'].
    rewrite dict_get_insert_ne by done. by apply Hagree.
  - intros k' Hk'. apply not_elem_of_cons. split.
    + intros ->. done.
    + apply Hfresh. by right.
Qed.

Lemma put_app u1 u2 s : put (u1 ++ u2) s = put u2 (put u1 s).
Proof. unfold put. by rewrite foldl_app. Qed.

Lemma dict_get_put_notin u s k : k ∉ u.*1 → dict_get (put u s) k = dict_get s k.
Proof.
  revert s. induction u as [|[k' v] u IH]; intros s Hk; [done|].
  apply not_elem_of_cons in Hk as [Hne Hk]. simpl.
  rewrite IH by done. by apply dict_get_insert_ne.
Qed.

Lemma dict_get_put_in u s k v :
  NoDup (u.*1) → (k, v) ∈ u → dict_get (put u s) k = v.
Proof.
  revert s. induction u as [|[k' v'] u IH]; intros s Hnd Hin; [by apply elem_of_nil in Hin|].
  apply NoDup_cons in Hnd as [Hk' Hnd].
  apply elem_of_cons in Hin as [[= -> ->]|Hin]; simpl.
  - rewrite dict_get_put_notin by done. apply dict_get_insert_eq.
  - by apply IH.
Qed.

Lemma all_updates_cons name u outs : all_updates ((name, u) :: outs) = u ++ all_updates outs.
Proof. done. Qed.

Lemma wrote_all_cons s name u outs :
  wrote_all s ((name, u) :: outs) = wrote s name u ++ wrote_all s outs.
Proof. done. Qed.

Lemma apply_writes_spec outs s0 s seen :
  (∀ k, k ∉ seen → dict_get s k = dict_get s0 k) →
  NoDup ((all_updates outs).*1) → (∀ k, k ∈ (all_updates outs).*1 → k ∉ seen) →
  apply_writes outs s seen = Ok (put (all_updates outs) s, wrote_all s0 outs).
Proof.
  revert s seen. induction outs as [|[name u] outs IH]; intros s seen Hagree Hnd Hfresh; [done|].
  rewrite all_updates_cons, fmap_app in Hnd, Hfresh.
  apply NoDup_app in Hnd as (Hnd1 & Hdisj & Hnd2).
  cbn [apply_writes].
  rewrite (apply_updates_spec name u s0) by (try done; intros k Hk; apply Hfresh, elem_of_app; by left).
  cbn [mbind result_bind]. rewrite (IH (put u s) (reverse (u.*1) ++ seen)); [| |done|].
  - cbn [mbind result_bind]. by rewrite all_updates_cons, put_app, wrote_all_cons.
  - intros k Hk. apply not_elem_of_app in Hk as [Hk1 Hk2].
    rewrite dict_get_put_notin; [by apply Hagree|].
    intros Hin. apply Hk1. rewrite elem_of_reverse. exact Hin.
  - intros k Hk. apply not_elem_of_app. split.
    + rewrite elem_of_reverse. intros Hin. by apply (Hdisj k).
    + apply Hfresh, elem_of_app. by right.
Qed.

Lemma put_perm u u' s : NoDup (u.*1) → u ≡ₚ u' → put u s = put u' s.
Proof.
  intros Hnd Hp. revert s Hnd.
  induction Hp as [|[k v] u u' Hp IH|[k1 v1] [k2 v2] u|u1 u2 u3 Hp1 IH1 Hp2 IH2];
    intros s Hnd.
  - done.
  - apply NoDup_cons in Hnd as [_ Hnd]. simpl. by apply IH.
  - simpl. f_equal. apply insert_insert_ne.
    apply NoDup_cons in Hnd as [Hk _]. intros ->. apply Hk. simpl. left.
  - rewrite IH1 by done. apply IH2. by rewrite <- Hp1.
Qed.

Lemma run_tasks_spec g order s :
  match run_tasks g order s with
  | (evs, AllReturned outs) =>
      outs.*1 = order ∧ Forall (fun o => run_node g o.1 s = Ok o.2) outs ∧
      evs = returned outs
  | (evs, OneRaised n e) =>
      n ∈ order ∧ run_node g n s = Raise e ∧
      Forall is_task_event evs ∧ Raised n e ∈ evs
  end.
Proof.
  induction order as [|name order IH]; [done|].
  cbn [run_tasks]. destruct (run_node g name s) as [u|e] eqn:Hrun.
  - destruct (run_tasks g order s) as [evs [outs|n e]].
    + destruct IH as (<- & Hall & ->). split_and!; [done| |done].
      constructor; done.
    + destruct IH as (Hin & Hn & Hev & Hraised). split_and!; [by right|done| |by right].
      constructor; done.
  - split_and!; [by left|done| |by left]. constructor; done.
Qed.

Lemma fmap_Permutation_inv {A B} (f : A → B) (l : list A) (k : list B) :
  f <$> l ≡ₚ k → ∃ l', f <$> l' = k ∧ l ≡ₚ l'.
Proof.
  intros Hp. symmetry in Hp.
  destruct (Permutation_map_inv f l Hp) as (l' & -> & Hl). by exists l'.
Qed.

Lemma completion_order_perm sched step active :
  completion_order sched step active ≡ₚ active.
Proof.
  unfold completion_order.
  destruct (permutations active !! sched step) as [l|] eqn:Hl; [|done].
  symmetry. apply permutations_Permutation. by eapply list_elem_of_lookup_2.
Qed.

Lemma superstep_spec g order active s :
  order ≡ₚ active →
  (∀ outs, outs.*1 = active → Forall (fun o => run_node g o.1 s = Ok o.2) outs →
           NoDup ((all_updates outs).*1)) →
  stage_spec g active s (superstep g order active s).
Proof.
  intros Hperm Hdisj. unfold superstep.
  pose proof (run_tasks_spec g order s) as Hrun.
  destruct (run_tasks g order s) as [evs [outs'|n e]].
  - destruct Hrun as (Hfst & Hall & ->).
    destruct (fmap_Permutation_inv fst outs' active) as (outs & Hfst' & Houts);
      [by rewrite Hfst|].
    assert (Hall' : Forall (fun o => run_node g o.1 s = Ok o.2) outs) by by rewrite <- Houts.
    pose proof (Hdisj outs Hfst' Hall') as Hnd.
    assert (Hupd : all_updates outs' ≡ₚ all_updates outs)
      by (unfold all_updates; by rewrite Houts).
    rewrite (apply_writes_spec outs' s s []).
    + rewrite (put_perm _ (all_updates outs)) by (by rewrite ?Hupd).
      apply stage_completed; try done.
      unfold returned, wrote_all. by rewrite Houts.
    + done.
    + by rewrite Hupd.
    + intros k _. apply not_elem_of_nil.
  - destruct Hrun as (Hin & Hn & Hev & Hraised).
    apply stage_failed; try done. by rewrite <- Hperm.
Qed.

Lemma pregel_loop_spec g sched fuel step active s tr :
  within_limit g fuel active = true →
  Forall (disjoint_outputs g) (levels g fuel active) →
  ∃ ex, stages_spec g (levels g fuel active) s ex ∧
        pregel_loop g sched fuel step active s tr =
        {| exec_outcome := exec_outcome ex; exec_state := exec_state ex;
           exec_trace := tr ++ exec_trace ex |}.
Proof.
  revert step active s tr.
  induction fuel as [|fuel IH]; intros step active s tr Hlim Hdisj.
  - destruct active; [|done]. eexists. split; [constructor|].
    simpl. by rewrite app_nil_r.
  - destruct active as [|a l].
    { eexists. split; [constructor|]. simpl. by rewrite app_nil_r. }
    cbn [levels within_limit] in *. apply Forall_cons in Hdisj as [Hd Hdisj].
    cbn [pregel_loop].
    pose proof (superstep_spec g (completion_order sched step (a :: l)) (a :: l) s
                  (completion_order_perm _ _ _) (Hd s)) as Hstage.
    destruct (superstep g _ (a :: l) s) as [s' evs|n e evs|e evs] eqn:Hstep.
    + destruct (IH (S step) (triggered g (a :: l)) s' (tr ++ evs) Hlim Hdisj)
        as (ex & Hex & ->).
      eexists. split; [by eapply stages_step|].
      simpl. by rewrite app_assoc.
    + eexists. split; [by eapply stages_fail|]. done.
    + inversion Hstage.
Qed.

Lemma workflow_levels env :
  levels (_build_workflow env) recursion_limit ["load_documents"] = workflow_stages.
Proof. reflexivity. Qed.

Lemma workflow_within_limit env :
  within_limit (_build_workflow env) recursion_limit ["load_documents"] = true.
Proof. reflexivity. Qed.

Lemma run_load_documents env s :
  run_node (_build_workflow env) "load_documents" s = _load_documents env s.
Proof. reflexivity. Qed.
Lemma run_parse_cv env s :
  run_node (_build_workflow env) "parse_cv" s = _parse_cv env s.
Proof. reflexivity. Qed.
Lemma run_analyze_job env s :
  run_node (_build_workflow env) "analyze_job" s = _analyze_job env s.
Proof. reflexivity. Qed.
Lemma run_match_skills env s :
  run_node (_build_workflow env) "match_skills" s = _match_skills env s.
Proof. reflexivity. Qed.
Lemma run_evaluate_experience env s :
  run_node (_build_workflow env) "evaluate_experience" s = _evaluate_experience env s.
Proof. reflexivity. Qed.
Lemma run_assess_culture_fit env s :
  run_node (_build_workflow env) "assess_culture_fit" s = _assess_culture_fit env s.
Proof. reflexivity. Qed.
Lemma run_create_final_assessment env s :
  run_node (_build_workflow env) "create_final_assessment" s =
  _create_final_assessment env s.
Proof. reflexivity. Qed.

Lemma load_documents_Ok env s u :
  _load_documents env s = Ok u →
  ∃ cvp jobp u1 u2,
    s !! "cv_file_path" = Some cvp ∧ s !! "job_description_path" = Some jobp ∧
    loaded (world env) "cv_text" cvp u1 ∧ loaded (world env) "job_text" jobp u2 ∧
    u = u1 ++ u2.
Proof.
  unfold _load_documents, dict_getitem.
  destruct (s !! "cv_file_path") as [cvp|] eqn:Hcv; [|done].
  cbn [mbind result_bind].
  destruct (truthy cvp) eqn:Htcv.
  - destruct (parse_document_of (world env) cvp) as [t1|] eqn:Hp1; [|done].
    cbn [mbind result_bind].
    destruct (s !! "job_description_path") as [jobp|] eqn:Hjob; [|done].
    cbn [mbind result_bind].
    destruct (truthy jobp) eqn:Htjob.
    + destruct (parse_document_of (world env) jobp) as [t2|] eqn:Hp2; [|done].
      cbn [mbind result_bind]. intros [= <-].
      exists cvp, jobp, [("cv_text", VStr t1)], [("job_text", VStr t2)].
      split_and!; try done; right; eauto.
    + cbn [mbind result_bind]. intros [= <-].
      exists cvp, jobp, [("cv_text", VStr t1)], [].
      split_and!; try done; [right; eauto|by left].
  - cbn [mbind result_bind].
    destruct (s !! "job_description_path") as [jobp|] eqn:Hjob; [|done].
    cbn [mbind result_bind].
    destruct (truthy jobp) eqn:Htjob.
    + destruct (parse_document_of (world env) jobp) as [t2|] eqn:Hp2; [|done].
      cbn [mbind result_bind]. intros [= <-].
      exists cvp, jobp, [], [("job_text", VStr t2)].
      split_and!; try done; [by left|right; eauto].
    + cbn [mbind result_bind]. intros [= <-].
      exists cvp, jobp, [], []. split_and!; try done; by left.
Qed.

Lemma parse_cv_Ok env s u :
  _parse_cv env s = Ok u →
  ∃ c, truthy (dict_get s "cv_text") = true ∧
       cv_parser_parse_cv (agents env) (dict_get s "cv_text") = Ok c ∧
       u = [("cv_data", VCVData c)].
Proof.
  unfold _parse_cv. destruct (truthy _); [|done]. cbn [negb].
  destruct (cv_parser_parse_cv _ _) as [c|]; [|done].
  cbn [mbind result_bind]. intros [= <-]. eauto.
Qed.

Lemma analyze_job_Ok env s u :
  _analyze_job env s = Ok u →
  ∃ j, truthy (dict_get s "job_text") = true ∧
       job_analyzer_analyze_job (agents env) (dict_get s "job_text") = Ok j ∧
       u = [("job_description", VJobDescription j)].
Proof.
  unfold _analyze_job. destruct (truthy _); [|done]. cbn [negb].
  destruct (job_analyzer_analyze_job _ _) as [j|]; [|done].
  cbn [mbind result_bind]. intros [= <-]. eauto.
Qed.

Lemma match_skills_Ok env s u :
  _match_skills env s = Ok u →
  ∃ r, truthy (dict_get s "cv_data") = true ∧
       truthy (dict_get s "job_description") = true ∧
       skills_matcher_match_skills (agents env) (dict_get s "cv_data")
         (dict_get s "job_description") = Ok r ∧
       u = [("skill_match", VSkillMatchResult r)].
Proof.
  unfold _match_skills.
  destruct (truthy (dict_get s "cv_data")); [|done].
  destruct (truthy (dict_get s "job_description")); [|done]. cbn [negb orb].
  destruct (skills_matcher_match_skills _ _ _) as [r|]; [|done].
  cbn [mbind result_bind]. intros [= <-]. eauto.
Qed.

Lemma evaluate_experience_Ok env s u :
  _evaluate_experience env s = Ok u →
  ∃ r, truthy (dict_get s "cv_data") = true ∧
       truthy (dict_get s "job_description") = true ∧
       experience_evaluator_evaluate_experience (agents env) (dict_get s "cv_data")
         (dict_get s "job_description") = Ok r ∧
       u = [("experience_evaluation", VExperienceEvaluation r)].
Proof.
  unfold _evaluate_experience.
  destruct (truthy (dict_get s "cv_data")); [|done].
  destruct (truthy (dict_get s "job_description")); [|done]. cbn [negb orb].
  destruct (experience_evaluator_evaluate_experience _ _ _) as [r|]; [|done].
  cbn [mbind result_bind]. intros [= <-]. eauto.
Qed.

Lemma assess_culture_fit_Ok env s u :
  _assess_culture_fit env s = Ok u →
  ∃ r, truthy (dict_get s "cv_data") = true ∧
       truthy (dict_get s "job_description") = true ∧
       culture_fit_assess_culture_fit (agents env) (dict_get s "cv_data")
         (dict_get s "job_description") = Ok r ∧
       u = [("culture_fit", VCultureFitAssessment r)].
Proof.
  unfold _assess_culture_fit.
  destruct (truthy (dict_get s "cv_data")); [|done].
  destruct (truthy (dict_get s "job_description")); [|done]. cbn [negb orb].
  destruct (culture_fit_assess_culture_fit _ _ _) as [r|]; [|done].
  cbn [mbind result_bind]. intros [= <-]. eauto.
Qed.

Lemma create_final_assessment_Ok env s u :
  _create_final_assessment env s = Ok u →
  ∃ cv job sk ex cu r,
    dict_get s "cv_data" = VCVData cv ∧
    dict_get s "job_description" = VJobDescription job ∧
    dict_get s "skill_match" = VSkillMatchResult sk ∧
    dict_get s "experience_evaluation" = VExperienceEvaluation ex ∧
    dict_get s "culture_fit" = VCultureFitAssessment cu ∧
    FinalScorerAgent.create_final_assessment (agents env) cv job sk ex cu = Ok r ∧
    u = [("assessment_result", VAssessmentResult r)].
Proof.
  unfold _create_final_assessment. cbv zeta.
  destruct (forallb truthy _); cbn [negb]; [|done].
  destruct (dict_get s "cv_data") as [| | cv | | | | |] eqn:?; try done.
  destruct (dict_get s "job_description") as [| | | job | | | |] eqn:?; try done.
  destruct (dict_get s "skill_match") as [| | | | sk | | |] eqn:?; try done.
  destruct (dict_get s "experience_evaluation") as [| | | | | ex | |] eqn:?; try done.
  destruct (dict_get s "culture_fit") as [| | | | | | cu |] eqn:?; try done.
  cbn [as_cv_data as_job_description as_skill_match as_experience_eval as_culture_fit
       mbind result_bind].
  destruct (FinalScorerAgent.create_final_assessment _ _ _ _ _ _) as [r|] eqn:?; [|done].
  cbn [mbind result_bind]. intros [= <-]. by exists cv, job, sk, ex, cu, r.
Qed.

Lemma loaded_keys w key path u : loaded w key path u → u.*1 = [] ∨ u.*1 = [key].
Proof. intros [[_ ->]|(t & _ & _ & ->)]; auto. Qed.

Ltac split_outs H :=
  repeat lazymatch type of H with
  | ?outs.*1 = _ :: _ =>
      let n := fresh "n" in let u := fresh "u" in
      destruct outs as [|[n u] outs]; [discriminate H|];
      rewrite fmap_cons in H; cbn [fst] in H;
      apply (inj2 cons) in H as [-> H]
  | ?outs.*1 = [] =>
      apply fmap_nil_inv in H; subst outs
  end.

Ltac split_all H :=
  repeat match type of H with
  | Forall _ (_ :: _) =>
      let Hhd := fresh "Hrun" in
      apply Forall_cons in H as [Hhd H]; cbn [fst snd] in Hhd
  | Forall _ [] => clear H
  end.

Lemma workflow_disjoint env :
  Forall (disjoint_outputs (_build_workflow env)) workflow_stages.
Proof.
  unfold workflow_stages. repeat apply Forall_cons_2; [| | | |by apply Forall_nil];
    intros s outs Hfst Hall.
  - unfold stage0 in Hfst. split_outs Hfst. split_all Hall.
    rewrite run_load_documents in Hrun.
    apply load_documents_Ok in Hrun as (cvp & jobp & u1 & u2 & _ & _ & H1 & H2 & ->).
    rewrite all_updates_cons. change (all_updates []) with (@nil (string * value)).
    rewrite app_nil_r, fmap_app.
    destruct (loaded_keys _ _ _ _ H1) as [-> | ->], (loaded_keys _ _ _ _ H2) as [-> | ->];
      compute_done.
  - unfold stage1 in Hfst. split_outs Hfst. split_all Hall.
    rewrite run_parse_cv in Hrun. rewrite run_analyze_job in Hrun0.
    apply parse_cv_Ok in Hrun as (c & _ & _ & ->).
    apply analyze_job_Ok in Hrun0 as (j & _ & _ & ->).
    compute_done.
  - unfold stage2 in Hfst. split_outs Hfst. split_all Hall.
    rewrite run_match_skills in Hrun. rewrite run_evaluate_experience in Hrun0.
    rewrite run_assess_culture_fit in Hrun1.
    apply match_skills_Ok in Hrun as (a & _ & _ & _ & ->).
    apply evaluate_experience_Ok in Hrun0 as (b & _ & _ & _ & ->).
    apply assess_culture_fit_Ok in Hrun1 as (c & _ & _ & _ & ->).
    compute_done.
  - unfold stage3 in Hfst. split_outs Hfst. split_all Hall.
    rewrite run_create_final_assessment in Hrun.
    apply create_final_assessment_Ok in Hrun as (? & ? & ? & ? & ? & r & _ & _ & _ & _ & _ & _ & ->).
    compute_done.
Qed.

Theorem workflow_stages_spec env sched cv job :
  stages_spec (_build_workflow env) workflow_stages (initial_state cv job)
              (workflow_invoke env sched cv job).
Proof.
  unfold workflow_invoke, invoke.
  change (option_list (entry_point (_build_workflow env))) with ["load_documents"].
  destruct (pregel_loop_spec (_build_workflow env) sched recursion_limit 0
              ["load_documents"] (initial_state cv job) [])
    as (ex & Hex & ->).
  - apply workflow_within_limit.
  - rewrite workflow_levels. apply workflow_disjoint.
  - rewrite workflow_levels in Hex. by destruct ex.
Qed.

(** ** The engine against the sequential reading *)

Lemma collect_Some g active s outs :
  outs.*1 = active → Forall (fun o => run_node g o.1 s = Ok o.2) outs →
  collect g active s = Some outs.
Proof.
  intros <- Hall. induction Hall as [|[n u] outs Hn _ IH]; [done|].
  cbn [fmap list_fmap fst collect] in *. cbn [fst snd] in Hn. by rewrite Hn, IH.
Qed.

Lemma collect_None g active s n e :
  n ∈ active → run_node g n s = Raise e → collect g active s = None.
Proof.
  intros Hin Hn. induction Hin as [n l|n m l _ IH]; cbn [collect].
  - by rewrite Hn.
  - destruct (run_node g m s); [|done]. by rewrite IH.
Qed.

Lemma collect_inv g active s outs :
  collect g active s = Some outs →
  outs.*1 = active ∧ Forall (fun o => run_node g o.1 s = Ok o.2) outs.
Proof.
  revert outs. induction active as [|n active IH]; intros outs; cbn [collect].
  - intros [= <-]. by split.
  - destruct (run_node g n s) as [u|] eqn:Hn; [|done].
    destruct (collect g active s) as [outs'|]; [|done].
    intros [= <-]. destruct (IH outs' eq_refl) as [<- Hall].
    split; [done|]. by constructor.
Qed.

Lemma stage_spec_ok_inv g active s s' evs :
  stage_spec g active s (StepOk s' evs) →
  ∃ outs rest,
    collect g active s = Some outs ∧ s' = put (all_updates outs) s ∧
    evs = map (fun n => Dispatched n s) active ++ rest ∧
    rest ≡ₚ returned outs ++ wrote_all s outs.
Proof.
  inversion 1 as [outs rest Hfst Hall Hnd Hrest|]; subst.
  exists outs, rest. split_and!; try done. by apply collect_Some.
Qed.

Lemma stage_spec_failed_inv g active s n e evs :
  stage_spec g active s (StepNodeFailed n e evs) →
  ∃ rest,
    n ∈ active ∧ run_node g n s = Raise e ∧
    evs = map (fun n => Dispatched n s) active ++ rest ∧
    Forall is_task_event rest ∧ Raised n e ∈ rest.
Proof. inversion 1; subst. eauto 10. Qed.

(** Whatever the schedule, an execution ends in the state the sequential
    reading computes; it completes exactly when every stage does, and a
    failure is the exception some node raised on that state. *)
Lemma stages_spec_reference g stages s ex :
  stages_spec g stages s ex →
  exec_state ex = (run_stages g stages s).2 ∧
  match exec_outcome ex with
  | Completed => (run_stages g stages s).1 = true
  | NodeFailed n e =>
      (run_stages g stages s).1 = false ∧ run_node g n (exec_state ex) = Raise e ∧
      ∃ k active, stages !! k = Some active ∧ n ∈ active ∧
                  run_stages g (take k stages) s = (true, exec_state ex)
  | EngineFailed _ => False
  end.
Proof.
  induction 1 as [s|active rest s s' evs ex Hstage Hrest IH|active rest s n e evs Hstage].
  - done.
  - apply stage_spec_ok_inv in Hstage as (outs & rest0 & Hc & -> & _ & _).
    cbn [run_stages exec_state exec_outcome]. rewrite Hc.
    destruct IH as [-> IH]. split; [done|].
    destruct (exec_outcome ex) as [|n e|e]; [done| |done].
    destruct IH as (? & ? & k & active' & ? & ? & Hk). split_and!; try done.
    exists (S k), active'. split_and!; try done.
    cbn [take run_stages]. by rewrite Hc.
  - apply stage_spec_failed_inv in Hstage as (rest0 & Hin & Hn & _ & _ & _).
    cbn [run_stages exec_state exec_outcome].
    rewrite (collect_None _ _ _ _ _ Hin Hn). split_and!; try done.
    by exists 0, active.
Qed.

Lemma write_log_app tr1 tr2 : write_log (tr1 ++ tr2) = write_log tr1 ++ write_log tr2.
Proof. apply omap_app. Qed.

Lemma write_log_dispatched (active : list string) s :
  write_log (map (fun n => Dispatched n s) active) = [].
Proof. by induction active. Qed.

Lemma write_log_task_events tr : Forall is_task_event tr → write_log tr = [].
Proof.
  induction 1 as [|ev tr Hev _ IH]; [done|].
  destruct ev; try done; exact IH.
Qed.

Lemma write_log_returned outs : write_log (returned outs) = [].
Proof. by induction outs. Qed.

Lemma write_log_wrote s name u :
  write_log (wrote s name u) = (fun kv => (name, kv.1, dict_get s kv.1)) <$> u.
Proof. induction u as [|kv u IH]; [done|]. cbn. by f_equal. Qed.

Lemma write_log_wrote_all s outs : write_log (wrote_all s outs) = stage_writes s outs.
Proof.
  induction outs as [|[n u] outs IH]; [done|].
  rewrite wrote_all_cons, write_log_app, write_log_wrote, IH. done.
Qed.

(** The writes of an execution are, up to the order within a superstep, those
    of the sequential reading. *)
Lemma stages_spec_write_log g stages s ex :
  stages_spec g stages s ex →
  write_log (exec_trace ex) ≡ₚ writes_of_stages g stages s.
Proof.
  induction 1 as [s|active rest s s' evs ex Hstage Hrest IH|active rest s n e evs Hstage].
  - done.
  - apply stage_spec_ok_inv in Hstage as (outs & rest0 & Hc & -> & -> & Hperm).
    cbn [writes_of_stages exec_trace]. rewrite Hc.
    rewrite !write_log_app, write_log_dispatched, IH. cbn [app].
    unfold write_log at 1. rewrite Hperm. fold (write_log (returned outs ++ wrote_all s outs)).
    by rewrite write_log_app, write_log_returned, write_log_wrote_all.
  - apply stage_spec_failed_inv in Hstage as (rest0 & Hin & Hn & -> & Hev & _).
    cbn [writes_of_stages exec_trace].
    rewrite (collect_None _ _ _ _ _ Hin Hn).
    by rewrite write_log_app, write_log_dispatched, write_log_task_events.
Qed.

(** ** The barrier between supersteps *)

Lemma lookup_dispatched (active : list string) (s : gmap string value) i ev :
  map (fun n => Dispatched n s) active !! i = Some ev →
  ∃ n, active !! i = Some n ∧ ev = Dispatched n s.
Proof.
  revert i. induction active as [|a active IH]; intros [|i] H; try done.
  - injection H as <-. by exists a.
  - by apply IH.
Qed.

Lemma not_dispatched_published outs s n view :
  Dispatched n view ∉ returned outs ++ wrote_all s outs.
Proof.
  intros [H|H]%elem_of_app.
  - apply list_elem_of_fmap in H as (? & ? & _). done.
  - unfold wrote_all in H. apply list_elem_of_bind in H as (o & H & _).
    apply list_elem_of_fmap in H as (? & ? & _). done.
Qed.

Lemma returned_of_active outs p :
  p ∈ outs.*1 → ∃ u, Returned p u ∈ returned outs.
Proof.
  intros ([p' u] & -> & Hin)%list_elem_of_fmap. exists u.
  apply list_elem_of_fmap. by exists (p', u).
Qed.

(** A node is dispatched on the state its stage starts from, and only after
    every node of every earlier stage has returned. *)
Lemma stages_spec_dispatch g stages s ex :
  stages_spec g stages s ex →
  ∀ i n view, exec_trace ex !! i = Some (Dispatched n view) →
  ∃ k active,
    stages !! k = Some active ∧ n ∈ active ∧
    run_stages g (take k stages) s = (true, view) ∧
    ∀ k' active' p, k' < k → stages !! k' = Some active' → p ∈ active' →
      ∃ j u, j < i ∧ exec_trace ex !! j = Some (Returned p u).
Proof.
  induction 1 as [s|active rest s s' evs ex Hstage Hrest IH|active rest s n0 e evs Hstage];
    intros i n view Hi; cbn [exec_trace] in *.
  - done.
  - apply stage_spec_ok_inv in Hstage as (outs & rest0 & Hc & -> & -> & Hperm).
    apply lookup_app_Some in Hi as [Hi|[Hle Hi]].
    + apply lookup_app_Some in Hi as [Hi|[_ Hi]].
      * apply lookup_dispatched in Hi as (n' & Hn' & [= <- <-]).
        exists 0, active. split_and!; [done|by eapply list_elem_of_lookup_2|done|lia].
      * apply list_elem_of_lookup_2 in Hi. rewrite Hperm in Hi.
        by apply not_dispatched_published in Hi.
    + destruct (IH _ _ _ Hi) as (k & active_k & Hk & Hn & Hrun & Hbefore).
      exists (S k), active_k. split_and!; [done|done| |].
      * cbn [take run_stages]. by rewrite Hc.
      * intros [|k'] active' p Hlt Hk' Hp.
        -- injection Hk' as <-. apply collect_inv in Hc as [Hfst _].
           destruct (returned_of_active outs p) as [u Hu]; [by rewrite Hfst|].
           assert (Hin : Returned p u ∈ rest0) by (rewrite Hperm; apply elem_of_app; by left).
           apply list_elem_of_lookup_1 in Hin as [j Hj].
           exists (length (map (fun n => Dispatched n s) active) + j), u.
           pose proof (lookup_lt_Some _ _ _ Hj). split.
           ++ rewrite length_app in Hle. lia.
           ++ apply lookup_app_l_Some. rewrite lookup_app_r by lia.
              by replace (_ + j - _) with j by lia.
        -- destruct (Hbefore k' active' p) as (j & u & Hj & Hlook); [lia|done|done|].
           exists (length (map (fun n => Dispatched n s) active ++ rest0) + j), u.
           split; [lia|]. rewrite lookup_app_r by lia.
           by replace (_ + j - _) with j by lia.
  - apply stage_spec_failed_inv in Hstage as (rest0 & Hin & Hn & -> & Hev & _).
    apply lookup_app_Some in Hi as [Hi|[_ Hi]].
    + apply lookup_dispatched in Hi as (n' & Hn' & [= <- <-]).
      exists 0, active. split_and!; [done|by eapply list_elem_of_lookup_2|done|lia].
    + apply list_elem_of_lookup_2 in Hi.
      by eapply Forall_forall in Hev; [|exact Hi].
Qed.

(** ** The stages of the workflow *)

Lemma load_documents_keys env s u k :
  _load_documents env s = Ok u → k ∈ u.*1 → k = "cv_text" ∨ k = "job_text".
Proof.
  intros (cvp & jobp & u1 & u2 & _ & _ & H1 & H2 & ->)%load_documents_Ok.
  rewrite fmap_app, elem_of_app.
  destruct (loaded_keys _ _ _ _ H1) as [-> | ->], (loaded_keys _ _ _ _ H2) as [-> | ->];
    rewrite ?elem_of_cons, ?elem_of_nil; naive_solver.
Qed.

Lemma collect_stage0 env s outs :
  collect (_build_workflow env) stage0 s = Some outs →
  ∃ u, _load_documents env s = Ok u ∧ outs = [("load_documents", u)].
Proof.
  intros [Hfst Hall]%collect_inv. unfold stage0 in Hfst.
  split_outs Hfst. split_all Hall. rewrite run_load_documents in Hrun. eauto.
Qed.

Lemma collect_stage1 env s outs :
  collect (_build_workflow env) stage1 s = Some outs →
  ∃ c j,
    truthy (dict_get s "cv_text") = true ∧
    cv_parser_parse_cv (agents env) (dict_get s "cv_text") = Ok c ∧
    truthy (dict_get s "job_text") = true ∧
    job_analyzer_analyze_job (agents env) (dict_get s "job_text") = Ok j ∧
    outs = [("parse_cv", [("cv_data", VCVData c)]);
            ("analyze_job", [("job_description", VJobDescription j)])].
Proof.
  intros [Hfst Hall]%collect_inv. unfold stage1 in Hfst.
  split_outs Hfst. split_all Hall.
  rewrite run_parse_cv in Hrun. rewrite run_analyze_job in Hrun0.
  apply parse_cv_Ok in Hrun as (c & ? & ? & ->).
  apply analyze_job_Ok in Hrun0 as (j & ? & ? & ->).
  by exists c, j.
Qed.

Lemma collect_stage2 env s outs :
  collect (_build_workflow env) stage2 s = Some outs →
  ∃ a b d,
    truthy (dict_get s "cv_data") = true ∧
    truthy (dict_get s "job_description") = true ∧
    skills_matcher_match_skills (agents env) (dict_get s "cv_data")
      (dict_get s "job_description") = Ok a ∧
    experience_evaluator_evaluate_experience (agents env) (dict_get s "cv_data")
      (dict_get s "job_description") = Ok b ∧
    culture_fit_assess_culture_fit (agents env) (dict_get s "cv_data")
      (dict_get s "job_description") = Ok d ∧
    outs = [("match_skills", [("skill_match", VSkillMatchResult a)]);
            ("evaluate_experience",
             [("experience_evaluation", VExperienceEvaluation b)]);
            ("assess_culture_fit", [("culture_fit", VCultureFitAssessment d)])].
Proof.
  intros [Hfst Hall]%collect_inv. unfold stage2 in Hfst.
  split_outs Hfst. split_all Hall.
  rewrite run_match_skills in Hrun. rewrite run_evaluate_experience in Hrun0.
  rewrite run_assess_culture_fit in Hrun1.
  apply match_skills_Ok in Hrun as (a & ? & ? & ? & ->).
  apply evaluate_experience_Ok in Hrun0 as (b & _ & _ & ? & ->).
  apply assess_culture_fit_Ok in Hrun1 as (d & _ & _ & ? & ->).
  by exists a, b, d.
Qed.

Lemma collect_stage3 env s outs :
  collect (_build_workflow env) stage3 s = Some outs →
  ∃ cv job sk ex cu r,
    dict_get s "cv_data" = VCVData cv ∧
    dict_get s "job_description" = VJobDescription job ∧
    dict_get s "skill_match" = VSkillMatchResult sk ∧
    dict_get s "experience_evaluation" = VExperienceEvaluation ex ∧
    dict_get s "culture_fit" = VCultureFitAssessment cu ∧
    FinalScorerAgent.create_final_assessment (agents env) cv job sk ex cu = Ok r ∧
    outs = [("create_final_assessment", [("assessment_result", VAssessmentResult r)])].
Proof.
  intros [Hfst Hall]%collect_inv. unfold stage3 in Hfst.
  split_outs Hfst. split_all Hall.
  rewrite run_create_final_assessment in Hrun.
  apply create_final_assessment_Ok in Hrun
    as (cv & job & sk & ex & cu & r & ? & ? & ? & ? & ? & ? & ->).
  by exists cv, job, sk, ex, cu, r.
Qed.

Lemma collect_step_load env s outs :
  collect (_build_workflow env) stage0 s = Some outs →
  step_load env s (put (all_updates outs) s).
Proof.
  intros (u & Hu & ->)%collect_stage0. exists u. split; [done|].
  by rewrite all_updates_cons, app_nil_r.
Qed.

Lemma collect_step_parse env s outs :
  collect (_build_workflow env) stage1 s = Some outs →
  step_parse env s (put (all_updates outs) s).
Proof. intros (c & j & ? & ? & ? & ? & ->)%collect_stage1. by exists c, j. Qed.

Lemma collect_step_evaluate env s outs :
  collect (_build_workflow env) stage2 s = Some outs →
  step_evaluate env s (put (all_updates outs) s).
Proof.
  intros (a & b & d & ? & ? & ? & ? & ? & ->)%collect_stage2. by exists a, b, d.
Qed.

Lemma collect_step_final env s outs :
  collect (_build_workflow env) stage3 s = Some outs →
  step_final env s (put (all_updates outs) s).
Proof.
  intros (cv & job & sk & ex & cu & r & ? & ? & ? & ? & ? & ? & ->)%collect_stage3.
  by exists cv, job, sk, ex, cu, r.
Qed.

(** ** The workflow against the sequential reading *)

Lemma workflow_reference env sched cv job :
  let ex := workflow_invoke env sched cv job in
  let ref := run_stages (_build_workflow env) workflow_stages (initial_state cv job) in
  exec_state ex = ref.2 ∧
  match exec_outcome ex with
  | Completed => ref.1 = true
  | NodeFailed n e =>
      ref.1 = false ∧ run_node (_build_workflow env) n (exec_state ex) = Raise e ∧
      ∃ k active, workflow_stages !! k = Some active ∧ n ∈ active ∧
                  run_stages (_build_workflow env) (take k workflow_stages)
                             (initial_state cv job) = (true, exec_state ex)
  | EngineFailed _ => False
  end.
Proof. apply stages_spec_reference, workflow_stages_spec. Qed.

Lemma workflow_prefix env s0 k s :
  run_stages (_build_workflow env) (take k workflow_stages) s0 = (true, s) →
  reached env s0 k s.
Proof.
  unfold workflow_stages.
  destruct k as [|[|[|[|k]]]]; cbn [take run_stages reached].
  - by intros [= <-].
  - destruct (collect _ stage0 s0) as [o0|] eqn:H0; [|done]. intros [= <-].
    by apply collect_step_load.
  - destruct (collect _ stage0 s0) as [o0|] eqn:H0; [|done].
    destruct (collect _ stage1 _) as [o1|] eqn:H1; [|done]. intros [= <-].
    eexists. split; [by apply collect_step_load|by apply collect_step_parse].
  - destruct (collect _ stage0 s0) as [o0|] eqn:H0; [|done].
    destruct (collect _ stage1 _) as [o1|] eqn:H1; [|done].
    destruct (collect _ stage2 _) as [o2|] eqn:H2; [|done]. intros [= <-].
    eexists _, _. split_and!;
      [by apply collect_step_load|by apply collect_step_parse
      |by apply collect_step_evaluate].
  - destruct (collect _ stage0 s0) as [o0|] eqn:H0; [|done].
    destruct (collect _ stage1 _) as [o1|] eqn:H1; [|done].
    destruct (collect _ stage2 _) as [o2|] eqn:H2; [|done].
    destruct (collect _ stage3 _) as [o3|] eqn:H3; [|done].
    rewrite take_nil. cbn [run_stages]. intros [= <-].
    eexists _, _, _. split_and!;
      [by apply collect_step_load|by apply collect_step_parse
      |by apply collect_step_evaluate|by apply collect_step_final].
Qed.

Lemma workflow_completed env s0 s :
  run_stages (_build_workflow env) workflow_stages s0 = (true, s) → reached env s0 4 s.
Proof. apply (workflow_prefix env s0 4 s). Qed.

(** What each step leaves alone. *)
Lemma step_load_frame env s s' k :
  step_load env s s' → k ≠ "cv_text" → k ≠ "job_text" → dict_get s' k = dict_get s k.
Proof.
  intros (u & Hu & ->) H1 H2. apply dict_get_put_notin.
  intros Hin. by destruct (load_documents_keys _ _ _ _ Hu Hin).
Qed.

Lemma step_parse_frame env s s' k :
  step_parse env s s' → k ≠ "cv_data" → k ≠ "job_description" →
  dict_get s' k = dict_get s k.
Proof.
  intros (c & j & _ & _ & _ & _ & ->) H1 H2.
  by rewrite !dict_get_insert_ne.
Qed.

Lemma step_evaluate_frame env s s' k :
  step_evaluate env s s' →
  k ≠ "skill_match" → k ≠ "experience_evaluation" → k ≠ "culture_fit" →
  dict_get s' k = dict_get s k.
Proof.
  intros (a & b & d & _ & _ & _ & _ & _ & ->) H1 H2 H3.
  by rewrite !dict_get_insert_ne.
Qed.

Lemma initial_state_unset cv job k :
  k ≠ "cv_file_path" → k ≠ "job_description_path" →
  dict_get (initial_state cv job) k = VNone.
Proof.
  intros H1 H2. unfold initial_state, dict_get. cbn [list_to_map foldr fst snd].
  repeat (rewrite lookup_insert; case_decide; [done|]).
  by rewrite lookup_empty.
Qed.

(** The value [run] returns, read off the sequential reading. *)
Lemma run_reference env sched cv job :
  run env sched cv job =
  let ref := run_stages (_build_workflow env) workflow_stages (initial_state cv job) in
  if ref.1 then dict_get ref.2 "assessment_result" else VNone.
Proof.
  unfold run. cbv zeta.
  destruct (workflow_reference env sched cv job) as [Hst Hout].
  destruct (exec_outcome _) as [|n e|e]; [|destruct Hout as [-> _]|]; try done.
  by rewrite Hout, Hst.
Qed.

(** ** Failures *)

Lemma stages_spec_raised g stages s ex n e :
  stages_spec g stages s ex → exec_outcome ex = NodeFailed n e →
  Raised n e ∈ exec_trace ex.
Proof.
  induction 1 as [s|active rest s s' evs ex Hstage Hrest IH|active rest s n0 e0 evs Hstage];
    cbn [exec_outcome exec_trace]; intros Hout.
  - done.
  - apply elem_of_app. right. by apply IH.
  - injection Hout as -> ->.
    apply stage_spec_failed_inv in Hstage as (rest0 & _ & _ & -> & _ & Hin).
    apply elem_of_app. by right.
Qed.

Lemma workflow_raised env sched cv job n e :
  exec_outcome (workflow_invoke env sched cv job) = NodeFailed n e →
  Raised n e ∈ exec_trace (workflow_invoke env sched cv job).
Proof. apply (stages_spec_raised _ _ _ _ _ _ (workflow_stages_spec env sched cv job)). Qed.

(** A failed execution stopped in a stage whose predecessors all completed. *)
Lemma workflow_failed env sched cv job n e :
  exec_outcome (workflow_invoke env sched cv job) = NodeFailed n e →
  run_node (_build_workflow env) n (exec_state (workflow_invoke env sched cv job)) = Raise e ∧
  ∃ k active, workflow_stages !! k = Some active ∧ n ∈ active ∧
              reached env (initial_state cv job) k
                      (exec_state (workflow_invoke env sched cv job)).
Proof.
  intros Hout. destruct (workflow_reference env sched cv job) as [_ Hfail].
  rewrite Hout in Hfail. destruct Hfail as (_ & Hn & k & active & Hk & Hin & Hrun).
  split; [done|]. exists k, active. split_and!; try done. by apply workflow_prefix.
Qed.

Lemma workflow_succeeded env sched cv job :
  exec_outcome (workflow_invoke env sched cv job) = Completed →
  reached env (initial_state cv job) 4 (exec_state (workflow_invoke env sched cv job)).
Proof.
  intros Hout. destruct (workflow_reference env sched cv job) as [Hst Hok].
  rewrite Hout in Hok. apply workflow_completed. rewrite Hst.
  by destruct (run_stages _ _ _) as [[] ?].
Qed.

Lemma truthy_populated v : truthy v = true → populated v = true.
Proof. by destruct v. Qed.

(** The keys written by the stages before the [k]-th. *)
Lemma reached_frame env s0 k s key :
  reached env s0 k s →
  key ∉ (take k workflow_stages ≫= (fun active => active ≫= outputs)) →
  dict_get s key = dict_get s0 key.
Proof.
  destruct k as [|[|[|[|k]]]]; cbn [reached].
  - by intros ->.
  - intros Hload Hkey. cbn in Hkey.
    apply (step_load_frame _ _ _ _ Hload); intros ->; apply Hkey; compute_done.
  - intros (s1 & Hload & Hparse) Hkey. cbn in Hkey.
    rewrite (step_parse_frame _ _ _ _ Hparse) by (intros ->; apply Hkey; compute_done).
    apply (step_load_frame _ _ _ _ Hload); intros ->; apply Hkey; compute_done.
  - intros (s1 & s2 & Hload & Hparse & Heval) Hkey. cbn in Hkey.
    rewrite (step_evaluate_frame _ _ _ _ Heval) by (intros ->; apply Hkey; compute_done).
    rewrite (step_parse_frame _ _ _ _ Hparse) by (intros ->; apply Hkey; compute_done).
    apply (step_load_frame _ _ _ _ Hload); intros ->; apply Hkey; compute_done.
  - intros (s1 & s2 & s3 & Hload & Hparse & Heval & Hfinal) Hkey.
    rewrite take_ge in Hkey by (cbn; lia). cbn in Hkey.
    destruct Hfinal as (? & ? & ? & ? & ? & r & _ & _ & _ & _ & _ & _ & ->).
    rewrite dict_get_insert_ne by (intros <-; apply Hkey; compute_done).
    rewrite (step_evaluate_frame _ _ _ _ Heval) by (intros ->; apply Hkey; compute_done).
    rewrite (step_parse_frame _ _ _ _ Hparse) by (intros ->; apply Hkey; compute_done).
    apply (step_load_frame _ _ _ _ Hload); intros ->; apply Hkey; compute_done.
Qed.

Ltac elem_cases H :=
  repeat (apply elem_of_cons in H as [->|H]); try (by apply elem_of_nil in H).

(** The slots of the stages that have not run are unset. *)
Lemma reached_unset env cv job k s k' active n key :
  reached env (initial_state cv job) k s →
  k ≤ k' → workflow_stages !! k' = Some active → n ∈ active → key ∈ outputs n →
  dict_get s key = VNone.
Proof.
  intros Hreach Hle Hk' Hn Hkey.
  assert (Hnot : key ∉ (take k workflow_stages ≫= (fun active => active ≫= outputs)) ∧
                 key ≠ "cv_file_path" ∧ key ≠ "job_description_path").
  { destruct k' as [|[|[|[|k']]]]; [| | | |done];
      injection Hk' as <-; elem_cases Hn; cbn in Hkey; elem_cases Hkey;
      (destruct k as [|[|[|[|k]]]]; [| | | |lia]; try lia);
      split_and!; try done; compute_done. }
  destruct Hnot as (Hnot & H1 & H2).
  rewrite (reached_frame _ _ _ _ _ Hreach Hnot). by apply initial_state_unset.
Qed.

(** The nodes downstream of a node are in later stages. *)
Lemma downstream_later env k active n d :
  workflow_stages !! k = Some active → n ∈ active →
  d ∈ downstream (_build_workflow env) n →
  ∃ k' active', k < k' ∧ workflow_stages !! k' = Some active' ∧ d ∈ active'.
Proof.
  intros Hk Hn Hd.
  destruct k as [|[|[|[|k]]]]; [| | | |done];
    injection Hk as <-; elem_cases Hn; vm_compute in Hd; elem_cases Hd.
  all: first [ by (exists 1; eexists; split_and!; [lia|reflexivity|compute_done])
             | by (exists 2; eexists; split_and!; [lia|reflexivity|compute_done])
             | by (exists 3; eexists; split_and!; [lia|reflexivity|compute_done]) ].
Qed.

(** When every stage completed, every slot is populated. *)
Lemma completed_populated env cv job s key :
  reached env (initial_state cv job) 4 s → key ∈ slots →
  populated (dict_get s key) = true.
Proof.
  intros (s1 & s2 & s3 & Hload & Hparse & Heval & Hfinal) Hkey.
  destruct Hparse as (c & j & Hcv & _ & Hjob & _ & ->).
  destruct Heval as (a & b & d & _ & _ & _ & _ & _ & ->).
  destruct Hfinal as (? & ? & ? & ? & ? & r & _ & _ & _ & _ & _ & _ & ->).
  unfold slots in Hkey. elem_cases Hkey;
    repeat first [ rewrite dict_get_insert_eq | rewrite dict_get_insert_ne by done ];
    try done; by apply truthy_populated.
Qed.

(** C1, as amended: [run] returns the report when every stage completed, and
    then every slot of the run state is populated; when a node raised, [run]
    returns [None], whatever the node and the exception.  The node and the
    exception are those of the execution [run] abandons: the node raised the
    exception on the state that the stages before its own left, and the
    exception is on the trace. *)
Theorem run_returns_report_or_none env sched cv job :
  match exec_outcome (workflow_invoke env sched cv job) with
  | Completed =>
      (∃ r, run env sched cv job = VAssessmentResult r) ∧
      ∀ key, key ∈ slots →
        populated (dict_get (exec_state (workflow_invoke env sched cv job)) key) = true
  | NodeFailed n e =>
      run env sched cv job = VNone ∧
      Raised n e ∈ exec_trace (workflow_invoke env sched cv job) ∧
      run_node (_build_workflow env) n
               (exec_state (workflow_invoke env sched cv job)) = Raise e ∧
      ∃ k active, workflow_stages !! k = Some active ∧ n ∈ active ∧
                  reached env (initial_state cv job) k
                          (exec_state (workflow_invoke env sched cv job))
  | EngineFailed _ => False
  end.
Proof.
  destruct (exec_outcome (workflow_invoke env sched cv job)) as [|n e|e] eqn:Hout.
  - pose proof (workflow_succeeded _ _ _ _ Hout) as Hreach. split.
    + unfold run. rewrite Hout.
      destruct Hreach as (s1 & s2 & s3 & _ & _ & _ & Hfinal).
      destruct Hfinal as (? & ? & ? & ? & ? & r & _ & _ & _ & _ & _ & _ & ->).
      exists r. apply dict_get_insert_eq.
    + intros key Hkey. by eapply completed_populated.
  - destruct (workflow_failed _ _ _ _ _ _ Hout) as [Hn Hk].
    split_and!; try done.
    + unfold run. by rewrite Hout.
    + by apply workflow_raised.
  - destruct (workflow_reference env sched cv job) as [_ Hfail]. by rewrite Hout in Hfail.
Qed.

(** C1, as stated, fails: two runs that fail in different stages with
    different exceptions return the same value to the caller. *)
Lemma run_failure_carries_no_tag :
  exec_outcome (workflow_invoke failing_job_env in_order (Some "missing.pdf") (Some "job.txt"))
    = NodeFailed "load_documents" (FileNotFoundError "File not found: missing.pdf") ∧
  exec_outcome (workflow_invoke failing_job_env in_order (Some "cv.txt") (Some "job.txt"))
    = NodeFailed "analyze_job" extraction_failure ∧
  run failing_job_env in_order (Some "missing.pdf") (Some "job.txt") = VNone ∧
  run failing_job_env in_order (Some "cv.txt") (Some "job.txt") = VNone.
Proof. split_and!; vm_compute; reflexivity. Qed.

(** C3, as amended: when a node raised, the report slot is unset, and so are
    the slots of the node and of every node downstream of it; [run] returns
    [None], which does not tell the node.  The node is told by the execution
    [run] abandons: it raised the exception on the final state, and the
    exception is on the trace. *)
Theorem failure_leaves_downstream_unset env sched cv job n e :
  exec_outcome (workflow_invoke env sched cv job) = NodeFailed n e →
  dict_get (exec_state (workflow_invoke env sched cv job)) "assessment_result" = VNone ∧
  (∀ key, key ∈ outputs n →
     dict_get (exec_state (workflow_invoke env sched cv job)) key = VNone) ∧
  (∀ d key, d ∈ downstream (_build_workflow env) n → key ∈ outputs d →
     dict_get (exec_state (workflow_invoke env sched cv job)) key = VNone) ∧
  run_node (_build_workflow env) n
           (exec_state (workflow_invoke env sched cv job)) = Raise e ∧
  Raised n e ∈ exec_trace (workflow_invoke env sched cv job) ∧
  run env sched cv job = VNone.
Proof.
  intros Hout.
  destruct (workflow_failed _ _ _ _ _ _ Hout) as (Hn & k & active & Hk & Hin & Hreach).
  assert (Hlt : k < 4) by (apply lookup_lt_Some in Hk; exact Hk).
  split_and!.
  - apply (reached_unset _ _ _ _ _ 3 stage3 "create_final_assessment" _ Hreach);
      [lia|done|compute_done|compute_done].
  - intros key Hkey. by apply (reached_unset _ _ _ _ _ k active n key Hreach).
  - intros d key Hd Hkey.
    destruct (downstream_later _ _ _ _ _ Hk Hin Hd) as (k' & active' & Hlt' & Hk' & Hd').
    apply (reached_unset _ _ _ _ _ k' active' d key Hreach); [lia|done..].
  - done.
  - by apply workflow_raised.
  - unfold run. by rewrite Hout.
Qed.

Lemma failure_leaves_downstream_unset_witness :
  exec_outcome (workflow_invoke failing_job_env in_order (Some "cv.txt") (Some "job.txt"))
    = NodeFailed "analyze_job" extraction_failure ∧
  Forall (fun key =>
            dict_get (exec_state (workflow_invoke failing_job_env in_order
                                    (Some "cv.txt") (Some "job.txt"))) key = VNone)
         ["skill_match"; "experience_evaluation"; "culture_fit"; "assessment_result"] ∧
  run failing_job_env in_order (Some "cv.txt") (Some "job.txt") = VNone.
Proof.
  assert (Hout : exec_outcome (workflow_invoke failing_job_env in_order
                                 (Some "cv.txt") (Some "job.txt"))
                 = NodeFailed "analyze_job" extraction_failure)
    by (vm_compute; reflexivity).
  destruct (failure_leaves_downstream_unset failing_job_env in_order (Some "cv.txt")
              (Some "job.txt") "analyze_job" extraction_failure Hout)
    as (Hreport & _ & Hdown & _ & _ & Hrun).
  split_and!; [exact Hout| |exact Hrun].
  repeat apply Forall_cons_2; [| | | |apply Forall_nil_2].
  - apply (Hdown "match_skills"); compute_done.
  - apply (Hdown "evaluate_experience"); compute_done.
  - apply (Hdown "assess_culture_fit"); compute_done.
  - exact Hreport.
Defined.

(** C3, as stated, fails: the value [run] returns is the same whether the
    job analysis or the CV extraction failed. *)
Lemma run_outcome_hides_the_stage :
  exec_outcome (workflow_invoke failing_job_env in_order (Some "cv.txt") (Some "job.txt"))
    = NodeFailed "analyze_job" extraction_failure ∧
  exec_outcome (workflow_invoke failing_cv_env in_order (Some "cv.txt") (Some "job.txt"))
    = NodeFailed "parse_cv" extraction_failure ∧
  run failing_job_env in_order (Some "cv.txt") (Some "job.txt")
    = run failing_cv_env in_order (Some "cv.txt") (Some "job.txt").
Proof. split_and!; vm_compute; reflexivity. Qed.

(** ** What the nodes returned *)








Lemma create_final_assessment_fields a cv job sk ex cu r :
  FinalScorerAgent.create_final_assessment a cv job sk ex cu = Ok r →
  AssessmentResult.cv_data r = cv ∧
  AssessmentResult.job_description r = job ∧
  AssessmentResult.skill_match r = sk ∧
  AssessmentResult.experience_evaluation r = ex ∧
  AssessmentResult.culture_fit r = cu.
Proof.
  unfold FinalScorerAgent.create_final_assessment. cbv zeta.
  destruct (final_scorer_details _ _ _ _ _ _ _) as [details|]; [|done].
  cbn [mbind result_bind]. by intros [= <-].
Qed.



Ltac pair_cases H :=
  repeat (let Heq := fresh in apply elem_of_cons in H as [Heq|H]; [simplify_eq|]);
  try (by apply elem_of_nil in H).



(** ** What the nodes wrote *)

Lemma stage_writes_keys s outs : (stage_writes s outs).*1.*2 = (all_updates outs).*1.
Proof.
  induction outs as [|[n u] outs IH]; [done|].
  unfold stage_writes, all_updates in *. cbn [mbind list_bind fst snd].
  rewrite !fmap_app, IH. f_equal.
  rewrite <- !list_fmap_compose. by apply list_fmap_ext.
Qed.

(** Every write of the sequential reading is a write of a stage on the state
    the stage started from. *)
Lemma writes_of_stages_inv g stages s w :
  w ∈ writes_of_stages g stages s →
  ∃ k active sk outs,
    stages !! k = Some active ∧ run_stages g (take k stages) s = (true, sk) ∧
    collect g active sk = Some outs ∧ w ∈ stage_writes sk outs.
Proof.
  revert s. induction stages as [|active rest IH]; intros s; cbn [writes_of_stages].
  - by intros ?%elem_of_nil.
  - destruct (collect g active s) as [outs|] eqn:Hc; [|by intros ?%elem_of_nil].
    intros [Hin|Hin]%elem_of_app.
    + by exists 0, active, s, outs.
    + destruct (IH _ Hin) as (k & active' & sk & outs' & Hk & Hrun & Hc' & Hw).
      exists (S k), active', sk, outs'. split_and!; try done.
      cbn [take run_stages]. by rewrite Hc.
Qed.

Lemma stage_writes_elem s outs name key old :
  (name, key, old) ∈ stage_writes s outs →
  old = dict_get s key ∧ ∃ u v, (name, u) ∈ outs ∧ (key, v) ∈ u.
Proof.
  unfold stage_writes. intros ([n u] & Hin & Ho)%list_elem_of_bind.
  apply list_elem_of_fmap in Hin as ([k v] & [= -> -> ->] & Hkv).
  split; [done|]. by exists u, v.
Qed.

(** The keys a node of the workflow writes are among its [outputs]. *)
Lemma workflow_outputs env k active sk outs name u key v :
  workflow_stages !! k = Some active →
  collect (_build_workflow env) active sk = Some outs →
  (name, u) ∈ outs → (key, v) ∈ u →
  name ∈ active ∧ key ∈ outputs name.
Proof.
  intros Hk Hc Hname Hkey.
  destruct k as [|[|[|[|k]]]]; [| | | |done]; injection Hk as <-.
  - apply collect_stage0 in Hc as (u0 & Hu & ->). pair_cases Hname. split; [compute_done|].
    destruct (load_documents_keys env sk _ key Hu) as [-> | ->]; [|compute_done..].
    apply list_elem_of_fmap. by exists (key, v).
  - apply collect_stage1 in Hc as (c & j & _ & _ & _ & _ & ->).
    pair_cases Hname; pair_cases Hkey; split; compute_done.
  - apply collect_stage2 in Hc as (a & b & d & _ & _ & _ & _ & _ & ->).
    pair_cases Hname; pair_cases Hkey; split; compute_done.
  - apply collect_stage3 in Hc as (? & ? & ? & ? & ? & r & _ & _ & _ & _ & _ & _ & ->).
    pair_cases Hname; pair_cases Hkey; split; compute_done.
Qed.

Lemma workflow_write_keys env s0 :
  NoDup ((writes_of_stages (_build_workflow env) workflow_stages s0).*1.*2).
Proof.
  unfold workflow_stages. cbn [writes_of_stages].
  destruct (collect _ stage0 s0) as [o0|] eqn:H0; [|constructor].
  rewrite !fmap_app, stage_writes_keys.
  assert (Hk0 : ∃ l, (all_updates o0).*1 = l ∧
                     l ∈ [[]; ["cv_text"]; ["job_text"]; ["cv_text"; "job_text"]]).
  { apply collect_stage0 in H0 as (u & Hu & ->).
    apply load_documents_Ok in Hu as (cvp & jobp & u1 & u2 & _ & _ & H1 & H2 & ->).
    rewrite all_updates_cons. change (all_updates []) with (@nil (string * value)).
    rewrite app_nil_r, fmap_app.
    destruct (loaded_keys _ _ _ _ H1) as [-> | ->], (loaded_keys _ _ _ _ H2) as [-> | ->];
      eexists; (split; [reflexivity|]); rewrite !elem_of_cons; tauto. }
  destruct Hk0 as (l & -> & Hl).
  destruct (collect _ stage1 _) as [o1|] eqn:H1;
    [|rewrite app_nil_r; elem_cases Hl; compute_done].
  rewrite !fmap_app, stage_writes_keys.
  apply collect_stage1 in H1 as (c & j & _ & _ & _ & _ & ->).
  destruct (collect _ stage2 _) as [o2|] eqn:H2;
    [|rewrite app_nil_r; elem_cases Hl; compute_done].
  rewrite !fmap_app, stage_writes_keys.
  apply collect_stage2 in H2 as (a & b & d & _ & _ & _ & _ & _ & ->).
  destruct (collect _ stage3 _) as [o3|] eqn:H3;
    [|rewrite app_nil_r; elem_cases Hl; compute_done].
  rewrite !fmap_app, stage_writes_keys.
  apply collect_stage3 in H3 as (? & ? & ? & ? & ? & r & _ & _ & _ & _ & _ & _ & ->).
  elem_cases Hl; compute_done.
Qed.

Lemma elem_of_write_log tr name key old :
  (name, key, old) ∈ write_log tr ↔ ∃ new, Wrote name key old new ∈ tr.
Proof.
  unfold write_log. rewrite list_elem_of_omap. split.
  - intros (ev & Hin & Hev). destruct ev; try done. injection Hev as -> -> ->. eauto.
  - intros [new Hin]. by exists (Wrote name key old new).
Qed.

(** C7: in every run, no key is written twice; a node writes only keys among
    its own outputs, which are slots of the run state, and the value it
    replaces is [None]: no slot that a predecessor populated is overwritten. *)
Theorem slots_written_at_most_once env sched cv job :
  NoDup ((write_log (exec_trace (workflow_invoke env sched cv job))).*1.*2) ∧
  ∀ name key old new,
    Wrote name key old new ∈ exec_trace (workflow_invoke env sched cv job) →
    name ∈ node_names (_build_workflow env) ∧
    key ∈ outputs name ∧ key ∈ slots ∧ old = VNone.
Proof.
  pose proof (stages_spec_write_log _ _ _ _ (workflow_stages_spec env sched cv job))
    as Hlog.
  split.
  - rewrite Hlog. apply workflow_write_keys.
  - intros name key old new Hin.
    assert (Hw : (name, key, old) ∈ write_log (exec_trace (workflow_invoke env sched cv job)))
      by (apply elem_of_write_log; eauto).
    rewrite Hlog in Hw.
    apply writes_of_stages_inv in Hw as (k & active & sk & outs & Hk & Hrun & Hc & Hw).
    apply stage_writes_elem in Hw as (-> & u & v & Hname & Hkey).
    destruct (workflow_outputs _ _ _ _ _ _ _ _ _ Hk Hc Hname Hkey) as [Hact Hout].
    apply workflow_prefix in Hrun.
    assert (Hnode : name ∈ node_names (_build_workflow env) ∧ key ∈ slots).
    { destruct k as [|[|[|[|k]]]]; [| | | |done]; injection Hk as <-;
        elem_cases Hact; cbn in Hout; elem_cases Hout; split; compute_done. }
    destruct Hnode. split_and!; try done.
    by apply (reached_unset _ _ _ _ _ k active name key Hrun).
Qed.

(** ** Dispatch *)

Lemma initial_state_cv_file_path cv job :
  initial_state cv job !! "cv_file_path" = Some (path_value cv).
Proof. unfold initial_state. cbn [list_to_map foldr fst snd]. by rewrite lookup_insert_eq. Qed.

Lemma initial_state_job_description_path cv job :
  initial_state cv job !! "job_description_path" = Some (path_value job).
Proof.
  unfold initial_state. cbn [list_to_map foldr fst snd].
  by rewrite lookup_insert_ne, lookup_insert_eq.
Qed.

(** The nodes with an edge to a node are in the stage before its own. *)
Lemma predecessors_earlier env k active n p :
  workflow_stages !! k = Some active → n ∈ active →
  p ∈ predecessors (_build_workflow env) n →
  ∃ k' active', k' < k ∧ workflow_stages !! k' = Some active' ∧ p ∈ active'.
Proof.
  intros Hk Hn Hp.
  destruct k as [|[|[|[|k]]]]; [| | | |done];
    injection Hk as <-; elem_cases Hn; vm_compute in Hp; elem_cases Hp.
  all: first [ by (exists 0; eexists; split_and!; [lia|reflexivity|compute_done])
             | by (exists 1; eexists; split_and!; [lia|reflexivity|compute_done])
             | by (exists 2; eexists; split_and!; [lia|reflexivity|compute_done]) ].
Qed.

(** After [load_documents], the text of a document whose reference is not
    empty is in its slot. *)
Lemma step_load_texts env cv job s :
  step_load env (initial_state cv job) s →
  (truthy (path_value cv) = true → ∃ text, dict_get s "cv_text" = VStr text) ∧
  (truthy (path_value job) = true → ∃ text, dict_get s "job_text" = VStr text).
Proof.
  intros (u & Hu & ->).
  apply load_documents_Ok in Hu as (cvp & jobp & u1 & u2 & Hcv & Hjob & H1 & H2 & ->).
  rewrite initial_state_cv_file_path in Hcv. injection Hcv as <-.
  rewrite initial_state_job_description_path in Hjob. injection Hjob as <-.
  rewrite put_app. split; intros Ht.
  - destruct H1 as [[Hf _]|(t & _ & _ & ->)]; [congruence|]. exists t.
    rewrite dict_get_put_notin.
    + apply dict_get_insert_eq.
    + destruct (loaded_keys _ _ _ _ H2) as [-> | ->]; compute_done.
  - destruct H2 as [[Hf _]|(t & _ & _ & ->)]; [congruence|]. exists t.
    apply dict_get_insert_eq.
Qed.

(** The slots a node reads are populated on the state it is dispatched on,
    but for the text of a document whose reference is empty. *)
Lemma reached_inputs env cv job k active s n key :
  reached env (initial_state cv job) k s →
  workflow_stages !! k = Some active → n ∈ active → key ∈ inputs n →
  (key = "cv_text" → truthy (path_value cv) = true) →
  (key = "job_text" → truthy (path_value job) = true) →
  populated (dict_get s key) = true.
Proof.
  intros Hreach Hk Hn Hkey Hcv Hjob.
  destruct k as [|[|[|[|k]]]]; [| | | |done]; injection Hk as <-; cbn [reached] in Hreach.
  - elem_cases Hn. cbn in Hkey. by apply elem_of_nil in Hkey.
  - apply step_load_texts in Hreach as [H1 H2].
    elem_cases Hn; cbn in Hkey; elem_cases Hkey.
    + destruct (H1 (Hcv eq_refl)) as [t ->]. done.
    + destruct (H2 (Hjob eq_refl)) as [t ->]. done.
  - destruct Hreach as (s1 & _ & c & j & _ & _ & _ & _ & ->).
    elem_cases Hn; cbn in Hkey; elem_cases Hkey;
      repeat first [ rewrite dict_get_insert_eq | rewrite dict_get_insert_ne by done ];
      done.
  - destruct Hreach as (s1 & s2 & _ & (c & j & _ & _ & _ & _ & ->) &
                        (a & b & d & _ & _ & _ & _ & _ & ->)).
    elem_cases Hn; cbn in Hkey; elem_cases Hkey;
      repeat first [ rewrite dict_get_insert_eq | rewrite dict_get_insert_ne by done ];
      done.
Qed.

(** After [load_documents], the text slot of a document whose reference is
    empty or [None] is still unset. *)
Lemma step_load_skips env cv job s :
  step_load env (initial_state cv job) s →
  (truthy (path_value cv) = false → dict_get s "cv_text" = VNone) ∧
  (truthy (path_value job) = false → dict_get s "job_text" = VNone).
Proof.
  intros (u & Hu & ->).
  apply load_documents_Ok in Hu as (cvp & jobp & u1 & u2 & Hcv & Hjob & H1 & H2 & ->).
  rewrite initial_state_cv_file_path in Hcv. injection Hcv as <-.
  rewrite initial_state_job_description_path in Hjob. injection Hjob as <-.
  rewrite put_app. split; intros Ht.
  - destruct H1 as [[_ ->]|(t & ? & _)]; [|congruence]. cbn [put foldl].
    rewrite dict_get_put_notin
      by (destruct (loaded_keys _ _ _ _ H2) as [-> | ->]; compute_done).
    by apply initial_state_unset.
  - destruct H2 as [[_ ->]|(t & ? & _)]; [|congruence]. cbn [put foldl].
    rewrite dict_get_put_notin
      by (destruct (loaded_keys _ _ _ _ H1) as [-> | ->]; compute_done).
    by apply initial_state_unset.
Qed.

(** C2, as amended: a node is dispatched only after every node with an edge
    to it has returned: [parse_cv] and [analyze_job] after [load_documents],
    and so on down the graph.  The three evaluators are dispatched on a state
    in which the CV record and the job record are populated, and
    [create_final_assessment] on a state in which its five inputs are.  Every
    slot a node reads is populated on the state the node is dispatched on,
    but for the text of a document whose reference is empty or [None]:
    [load_documents] skips such a reference, and [parse_cv] (or
    [analyze_job]) is dispatched with [cv_text] (or [job_text]) unset. *)
Theorem dispatched_after_inputs env sched cv job i n view :
  exec_trace (workflow_invoke env sched cv job) !! i = Some (Dispatched n view) →
  (∀ p, p ∈ predecessors (_build_workflow env) n →
        ∃ j u, j < i ∧
               exec_trace (workflow_invoke env sched cv job) !! j = Some (Returned p u)) ∧
  (n ∈ stage1 →
     ∃ j u, j < i ∧
            exec_trace (workflow_invoke env sched cv job) !! j
              = Some (Returned "load_documents" u)) ∧
  (n ∈ stage2 →
     populated (dict_get view "cv_data") = true ∧
     populated (dict_get view "job_description") = true) ∧
  (n ∈ stage3 →
     ∀ key, key ∈ inputs n → populated (dict_get view key) = true) ∧
  (∀ key, key ∈ inputs n →
     (key = "cv_text" → truthy (path_value cv) = true) →
     (key = "job_text" → truthy (path_value job) = true) →
     populated (dict_get view key) = true) ∧
  (n = "parse_cv" → truthy (path_value cv) = false →
     dict_get view "cv_text" = VNone) ∧
  (n = "analyze_job" → truthy (path_value job) = false →
     dict_get view "job_text" = VNone).
Proof.
  intros Hi.
  destruct (stages_spec_dispatch _ _ _ _ (workflow_stages_spec env sched cv job) _ _ _ Hi)
    as (k & active & Hk & Hn & Hrun & Hbefore).
  apply workflow_prefix in Hrun.
  assert (Hpred : ∀ p, p ∈ predecessors (_build_workflow env) n →
            ∃ j u, j < i ∧
              exec_trace (workflow_invoke env sched cv job) !! j = Some (Returned p u)).
  { intros p Hp.
    destruct (predecessors_earlier _ _ _ _ _ Hk Hn Hp) as (k' & active' & Hlt & Hk' & Hp').
    by apply (Hbefore k' active' p). }
  assert (Hnodup : ∀ k1 k2 a1 a2 m, workflow_stages !! k1 = Some a1 →
            workflow_stages !! k2 = Some a2 → m ∈ a1 → m ∈ a2 → k1 = k2).
  { intros k1 k2 a1 a2 m H1 H2 Hm1 Hm2.
    destruct k1 as [|[|[|[|k1]]]]; [| | | |done]; injection H1 as <-;
      (destruct k2 as [|[|[|[|k2]]]]; [| | | |done]); injection H2 as <-;
      try done; elem_cases Hm1; exfalso; revert Hm2; compute_done. }
  split_and!.
  - exact Hpred.
  - intros Hs1. apply Hpred. elem_cases Hs1; compute_done.
  - intros Hs2.
    assert (k = 2) as -> by (by apply (Hnodup k 2 active stage2 n)).
    injection Hk as <-.
    split; apply (reached_inputs _ _ _ _ _ _ n _ Hrun eq_refl Hn);
      try done; elem_cases Hs2; compute_done.
  - intros Hs3 key Hkey.
    assert (k = 3) as -> by (by apply (Hnodup k 3 active stage3 n)).
    apply (reached_inputs _ _ _ _ _ _ n key Hrun Hk Hn Hkey);
      intros ->; exfalso; elem_cases Hs3; revert Hkey; compute_done.
  - intros key Hkey Hcv Hjob.
    by apply (reached_inputs _ _ _ _ _ _ n key Hrun Hk Hn Hkey).
  - intros -> Hcv.
    assert (k = 1) as -> by (apply (Hnodup k 1 active stage1 "parse_cv"); try done;
                             compute_done).
    cbn [reached] in Hrun. by apply step_load_skips in Hrun as [Hskip _]; auto.
  - intros -> Hjob.
    assert (k = 1) as -> by (apply (Hnodup k 1 active stage1 "analyze_job"); try done;
                             compute_done).
    cbn [reached] in Hrun. by apply step_load_skips in Hrun as [_ Hskip]; auto.
Qed.

Lemma dispatched_after_inputs_witness :
  ∃ view,
    exec_trace (workflow_invoke (stub_env "strong_match") reversed
                  (Some "cv.txt") (Some "job.txt")) !! 10
      = Some (Dispatched "match_skills" view) ∧
    populated (dict_get view "cv_data") = true ∧
    populated (dict_get view "job_description") = true.
Proof.
  eexists. split; [vm_compute; reflexivity|].
  refine (proj1 (proj2 (proj2 (dispatched_after_inputs (stub_env "strong_match") reversed
            (Some "cv.txt") (Some "job.txt") 10 "match_skills" _ _))) _).
  - vm_compute. reflexivity.
  - compute_done.
Defined.

(** C2, as stated, fails: in a run whose CV reference is [None],
    [load_documents] completes without a text for the CV, and [parse_cv] is
    dispatched on a state in which [cv_text], the slot it reads, is unset. *)
Lemma parse_cv_dispatched_without_text :
  ∃ view,
    exec_trace (workflow_invoke (stub_env "strong_match") in_order
                  None (Some "job.txt")) !! 3
      = Some (Dispatched "parse_cv" view) ∧
    "cv_text" ∈ inputs "parse_cv" ∧
    populated (dict_get view "cv_text") = false.
Proof.
  eexists. split; [vm_compute; reflexivity|]. split; [compute_done|].
  vm_compute. reflexivity.
Qed.

(** ** Two runs *)

Lemma dict_get_erase_timestamp s key :
  dict_get (erase_timestamp <$> s) key = erase_timestamp (dict_get s key).
Proof. unfold dict_get. rewrite lookup_fmap. by destruct (s !! key). Qed.

Lemma collect_set_clock_stage0 now env s :
  collect (_build_workflow (set_clock now env)) stage0 s
  = collect (_build_workflow env) stage0 s.
Proof. reflexivity. Qed.

Lemma collect_set_clock_stage1 now env s :
  collect (_build_workflow (set_clock now env)) stage1 s
  = collect (_build_workflow env) stage1 s.
Proof. reflexivity. Qed.

Lemma collect_set_clock_stage2 now env s :
  collect (_build_workflow (set_clock now env)) stage2 s
  = collect (_build_workflow env) stage2 s.
Proof. reflexivity. Qed.

(** The clock shows in the report's timestamp only. *)
Lemma create_final_assessment_set_clock now env s :
  _create_final_assessment (set_clock now env) s =
  match _create_final_assessment env s with
  | Ok _ =>
      match dict_get s "cv_data", dict_get s "job_description", dict_get s "skill_match",
            dict_get s "experience_evaluation", dict_get s "culture_fit" with
      | VCVData cv, VJobDescription job, VSkillMatchResult sk,
        VExperienceEvaluation ex, VCultureFitAssessment cu =>
          match FinalScorerAgent.create_final_assessment (agents env) cv job sk ex cu with
          | Ok r => Ok [("assessment_result", VAssessmentResult (set_timestamp now r))]
          | Raise e => Raise e
          end
      | _, _, _, _, _ => Raise (ValueError "Not all assessment components available")
      end
  | Raise e => Raise e
  end.
Proof.
  unfold _create_final_assessment. cbv zeta.
  destruct (forallb truthy _); cbn [negb]; [|done].
  destruct (dict_get s "cv_data") as [| | cv | | | | |]; try done.
  destruct (dict_get s "job_description") as [| | | job | | | |]; try done.
  destruct (dict_get s "skill_match") as [| | | | sk | | |]; try done.
  destruct (dict_get s "experience_evaluation") as [| | | | | ex | |]; try done.
  destruct (dict_get s "culture_fit") as [| | | | | | cu |]; try done.
  cbn [as_cv_data as_job_description as_skill_match as_experience_eval as_culture_fit
       mbind result_bind].
  unfold FinalScorerAgent.create_final_assessment. cbv zeta.
  cbn [agents set_clock final_scorer_details datetime_now].
  destruct (final_scorer_details _ _ _ _ _ _ _) as [details|]; done.
Qed.

Lemma run_stages_set_clock now env s :
  (run_stages (_build_workflow (set_clock now env)) workflow_stages s).1
  = (run_stages (_build_workflow env) workflow_stages s).1 ∧
  erase_timestamp <$> (run_stages (_build_workflow (set_clock now env)) workflow_stages s).2
  = erase_timestamp <$> (run_stages (_build_workflow env) workflow_stages s).2.
Proof.
  unfold workflow_stages. cbn [run_stages].
  rewrite collect_set_clock_stage0.
  destruct (collect _ stage0 s) as [o0|]; [|done].
  rewrite collect_set_clock_stage1.
  destruct (collect _ stage1 _) as [o1|]; [|done].
  rewrite collect_set_clock_stage2.
  destruct (collect _ stage2 _) as [o2|]; [|done].
  generalize (put (all_updates o2) (put (all_updates o1) (put (all_updates o0) s))).
  intros s3. unfold stage3. cbn [collect].
  rewrite !run_create_final_assessment, create_final_assessment_set_clock.
  destruct (_create_final_assessment env s3) as [u|e] eqn:Hfinal; [|done].
  apply create_final_assessment_Ok in Hfinal
    as (cv & job & sk & ex & cu & r & -> & -> & -> & -> & -> & -> & ->).
  cbn. split; [done|]. by rewrite !fmap_insert.
Qed.

(** C8: two runs over the same references with the same collaborators end
    in the same run state and return the same value, whatever the order in
    which the concurrent nodes of each superstep complete: the three
    evaluators, and the two extractions as well.  When the clock differs
    between the two runs, the states and the returned values are the same
    once the report's timestamp is blanked. *)
Theorem runs_agree env sched1 sched2 now1 now2 cv job :
  (exec_state (workflow_invoke env sched1 cv job)
   = exec_state (workflow_invoke env sched2 cv job) ∧
   run env sched1 cv job = run env sched2 cv job) ∧
  (erase_timestamp <$> exec_state (workflow_invoke (set_clock now1 env) sched1 cv job)
   = erase_timestamp <$> exec_state (workflow_invoke (set_clock now2 env) sched2 cv job) ∧
   erase_timestamp (run (set_clock now1 env) sched1 cv job)
   = erase_timestamp (run (set_clock now2 env) sched2 cv job)).
Proof.
  split; split.
  - destruct (workflow_reference env sched1 cv job) as [-> _].
    by destruct (workflow_reference env sched2 cv job) as [-> _].
  - by rewrite !run_reference.
  - destruct (workflow_reference (set_clock now1 env) sched1 cv job) as [-> _].
    destruct (workflow_reference (set_clock now2 env) sched2 cv job) as [-> _].
    destruct (run_stages_set_clock now1 env (initial_state cv job)) as [_ ->].
    by destruct (run_stages_set_clock now2 env (initial_state cv job)) as [_ ->].
  - rewrite !run_reference. cbv zeta.
    destruct (run_stages_set_clock now1 env (initial_state cv job)) as [-> H1].
    destruct (run_stages_set_clock now2 env (initial_state cv job)) as [-> H2].
    destruct (run_stages (_build_workflow env) workflow_stages (initial_state cv job)).1;
      [|done].
    by rewrite <- !dict_get_erase_timestamp, H1, H2.
Qed.

(** ** Empty references *)

(** [load_documents] skips a reference that is empty or [None]. *)
Lemma load_documents_skips env cv job :
  loads (world env) cv → loads (world env) job →
  ∃ u, _load_documents env (initial_state cv job) = Ok u ∧
       (truthy (path_value cv) = false → "cv_text" ∉ u.*1) ∧
       (truthy (path_value job) = false → "job_text" ∉ u.*1).
Proof.
  intros Hcv Hjob. unfold _load_documents, dict_getitem.
  rewrite initial_state_cv_file_path, initial_state_job_description_path.
  cbn [mbind result_bind].
  destruct (truthy (path_value cv)) eqn:Htcv, (truthy (path_value job)) eqn:Htjob.
  - destruct Hcv as [?|[t1 ->]]; [congruence|]. destruct Hjob as [?|[t2 ->]]; [congruence|].
    cbn [mbind result_bind app]. eexists. split; [done|]. split; intros; done.
  - destruct Hcv as [?|[t1 ->]]; [congruence|].
    cbn [mbind result_bind app]. eexists. split; [done|].
    split; intros; [done|compute_done].
  - destruct Hjob as [?|[t2 ->]]; [congruence|].
    cbn [mbind result_bind app]. eexists. split; [done|].
    split; intros; [compute_done|done].
  - cbn [mbind result_bind]. eexists. split; [done|]. split; intros; compute_done.
Qed.

(** The sequential reading stops at the first stage that does not complete. *)
Lemma run_stages_stops_second g a b rest s outs :
  collect g a s = Some outs → collect g b (put (all_updates outs) s) = None →
  run_stages g (a :: b :: rest) s = (false, put (all_updates outs) s) ∧
  ∀ k, 2 ≤ k → (run_stages g (take k (a :: b :: rest)) s).1 = false.
Proof.
  intros Ha Hb. split.
  - cbn [run_stages]. by rewrite Ha, Hb.
  - intros [|[|k]] Hk; [lia..|]. cbn [take run_stages]. by rewrite Ha, Hb.
Qed.

(** A run whose first stage completed and whose second stage has a node that
    raises fails in the second stage, on the state the first stage left. *)
Lemma fails_in_stage1 env sched cv job u m e0 :
  _load_documents env (initial_state cv job) = Ok u →
  m ∈ stage1 →
  run_node (_build_workflow env) m (put u (initial_state cv job)) = Raise e0 →
  exec_state (workflow_invoke env sched cv job) = put u (initial_state cv job) ∧
  ∃ n e, exec_outcome (workflow_invoke env sched cv job) = NodeFailed n e ∧
         n ∈ stage1 ∧
         run_node (_build_workflow env) n (put u (initial_state cv job)) = Raise e.
Proof.
  intros Hload Hm Hraise.
  assert (H0 : collect (_build_workflow env) stage0 (initial_state cv job)
               = Some [("load_documents", u)]).
  { apply collect_Some; [done|]. apply Forall_cons_2; [|apply Forall_nil_2].
    cbn [fst snd]. by rewrite run_load_documents. }
  assert (Hu : all_updates [("load_documents", u)] = u)
    by (rewrite all_updates_cons; apply app_nil_r).
  assert (H1 : collect (_build_workflow env) stage1
                 (put (all_updates [("load_documents", u)]) (initial_state cv job)) = None)
    by (rewrite Hu; exact (collect_None _ _ _ _ _ Hm Hraise)).
  destruct (run_stages_stops_second _ _ _ [stage2; stage3] _ _ H0 H1) as [Href Hstop].
  fold workflow_stages in Href, Hstop. rewrite Hu in Href.
  destruct (workflow_reference env sched cv job) as [Hst Hout].
  cbv zeta in Hst, Hout. rewrite Href in Hst, Hout. cbn [fst snd] in Hst, Hout.
  split; [done|].
  destruct (exec_outcome (workflow_invoke env sched cv job)) as [|n e|e]; [done| |done].
  destruct Hout as (_ & Hn & k & active & Hk & Hin & Hrun). rewrite Hst in Hn, Hrun.
  exists n, e. split_and!; [done| |done].
  destruct k as [|[|k]].
  - injection Hk as <-. apply workflow_prefix in Hrun. cbn [reached] in Hrun.
    elem_cases Hin. rewrite run_load_documents in Hn. rewrite Hrun in Hn. congruence.
  - by injection Hk as <-.
  - specialize (Hstop (S (S k))). rewrite Hrun in Hstop. cbn [fst] in Hstop.
    discriminate Hstop. lia.
Qed.

(** ** The exception that ends an execution *)

Lemma not_raised_returned outs : Forall not_raised (returned outs).
Proof. induction outs; by constructor. Qed.

Lemma not_raised_dispatched (active : list string) s :
  Forall not_raised (map (fun n => Dispatched n s) active).
Proof. induction active; by constructor. Qed.

(** The tasks of a superstep are run until one raises: its exception is the
    last event, and the only exception. *)
Lemma run_tasks_raised g order s :
  match run_tasks g order s with
  | (evs, AllReturned _) => Forall not_raised evs
  | (evs, OneRaised n e) => ∃ pre, evs = pre ++ [Raised n e] ∧ Forall not_raised pre
  end.
Proof.
  induction order as [|name order IH]; [by constructor|].
  cbn [run_tasks]. destruct (run_node g name s) as [u|e].
  - destruct (run_tasks g order s) as [evs [outs|n e]].
    + by constructor.
    + destruct IH as (pre & -> & Hpre). exists (Returned name u :: pre).
      split; [done|by constructor].
  - by exists [].
Qed.

Lemma apply_updates_not_raised name u st seen st' seen' evs :
  apply_updates name u st seen = Ok (st', seen', evs) → Forall not_raised evs.
Proof.
  revert st seen st' seen' evs.
  induction u as [|[k v] u IH]; intros st seen st' seen' evs; cbn [apply_updates].
  - intros [= <- <- <-]. constructor.
  - destruct (existsb _ seen); [done|].
    destruct (apply_updates name u _ _) as [[[st1 seen1] evs1]|] eqn:Hu; [|done].
    cbn [mbind result_bind]. intros [= <- <- <-].
    constructor; [done|]. by eapply IH.
Qed.

Lemma apply_writes_not_raised outs st seen st' evs :
  apply_writes outs st seen = Ok (st', evs) → Forall not_raised evs.
Proof.
  revert st seen st' evs.
  induction outs as [|[name u] outs IH]; intros st seen st' evs; cbn [apply_writes].
  - intros [= <- <-]. constructor.
  - destruct (apply_updates name u st seen) as [[[st1 seen1] evs1]|] eqn:Hu; [|done].
    cbn [mbind result_bind].
    destruct (apply_writes outs st1 seen1) as [[st2 evs2]|] eqn:Hw; [|done].
    cbn [mbind result_bind]. intros [= <- <-].
    apply Forall_app. split; [by eapply apply_updates_not_raised|by eapply IH].
Qed.

Lemma superstep_raised g order active s :
  match superstep g order active s with
  | StepOk _ evs => Forall not_raised evs
  | StepNodeFailed n e evs => ∃ pre, evs = pre ++ [Raised n e] ∧ Forall not_raised pre
  | StepEngineFailed _ _ => True
  end.
Proof.
  unfold superstep. pose proof (run_tasks_raised g order s) as Hrun.
  destruct (run_tasks g order s) as [evs [outs|n e]].
  - destruct (apply_writes outs s []) as [[st' wevs]|] eqn:Hw; [|done].
    apply Forall_app. split; [apply not_raised_dispatched|].
    apply Forall_app. split; [done|by eapply apply_writes_not_raised].
  - destruct Hrun as (pre & -> & Hpre).
    exists (map (fun n => Dispatched n s) active ++ pre).
    split; [by rewrite app_assoc|].
    apply Forall_app. split; [apply not_raised_dispatched|done].
Qed.

Lemma pregel_loop_raised g sched fuel step active s tr :
  Forall not_raised tr →
  match exec_outcome (pregel_loop g sched fuel step active s tr) with
  | Completed => Forall not_raised (exec_trace (pregel_loop g sched fuel step active s tr))
  | NodeFailed n e =>
      ∃ pre, exec_trace (pregel_loop g sched fuel step active s tr) = pre ++ [Raised n e] ∧
             Forall not_raised pre
  | EngineFailed _ => True
  end.
Proof.
  revert step active s tr.
  induction fuel as [|fuel IH]; intros step active s tr Htr.
  - by destruct active.
  - destruct active as [|a l]; [done|]. cbn [pregel_loop].
    pose proof (superstep_raised g (completion_order sched step (a :: l)) (a :: l) s)
      as Hstep.
    destruct (superstep g _ (a :: l) s) as [s' evs|n e evs|e evs].
    + apply IH. apply Forall_app. by split.
    + cbn [exec_outcome exec_trace]. destruct Hstep as (pre & -> & Hpre).
      exists (tr ++ pre). split; [by rewrite app_assoc|].
      apply Forall_app. by split.
    + done.
Qed.

(** The exception a run stops on is the last event of its trace, and no
    other node has raised before. *)
Lemma workflow_raised_last env sched cv job n e :
  exec_outcome (workflow_invoke env sched cv job) = NodeFailed n e →
  ∃ pre, exec_trace (workflow_invoke env sched cv job) = pre ++ [Raised n e] ∧
         ∀ m e', Raised m e' ∉ pre.
Proof.
  intros Hout. unfold workflow_invoke, invoke in *.
  pose proof (pregel_loop_raised (_build_workflow env) sched recursion_limit 0
                (option_list (entry_point (_build_workflow env)))
                (initial_state cv job) [] (Forall_nil_2 _)) as Hlast.
  rewrite Hout in Hlast. destruct Hlast as (pre & Hpre & Hnot).
  exists pre. split; [done|].
  intros m e' Hin. by eapply Forall_forall in Hnot; [|exact Hin].
Qed.

(** The nodes of a first stage that completes are on the trace with what
    they returned. *)
Lemma stages_spec_returned_first g active rest s ex outs p u :
  stages_spec g (active :: rest) s ex → collect g active s = Some outs →
  (p, u) ∈ outs → Returned p u ∈ exec_trace ex.
Proof.
  intros Hspec Hc Hin.
  inversion Hspec as [|? ? ? s' evs ex' Hstage Hrest|? ? ? n e evs Hstage]; subst;
    cbn [exec_trace].
  - apply stage_spec_ok_inv in Hstage as (outs' & rest0 & Hc' & _ & -> & Hperm).
    rewrite Hc in Hc'. injection Hc' as <-.
    apply elem_of_app. left. apply elem_of_app. right. rewrite Hperm.
    apply elem_of_app. left. unfold returned. apply list_elem_of_fmap. by exists (p, u).
  - apply stage_spec_failed_inv in Hstage as (rest0 & Hn & Hraise & _).
    by rewrite (collect_None _ _ _ _ _ Hn Hraise) in Hc.
Qed.

Lemma load_documents_returned env sched cv job u :
  _load_documents env (initial_state cv job) = Ok u →
  Returned "load_documents" u ∈ exec_trace (workflow_invoke env sched cv job).
Proof.
  intros Hload.
  apply (stages_spec_returned_first _ stage0 [stage1; stage2; stage3] _ _
           [("load_documents", u)] _ _ (workflow_stages_spec env sched cv job)).
  - apply collect_Some; [done|]. apply Forall_cons_2; [|apply Forall_nil_2].
    cbn [fst snd]. by rewrite run_load_documents.
  - apply elem_of_cons. by left.
Qed.

Lemma empty_cv_reference env sched cv job :
  truthy (path_value cv) = false → loads (world env) job →
  ∃ u n e pre,
    _load_documents env (initial_state cv job) = Ok u ∧ "cv_text" ∉ u.*1 ∧
    Returned "load_documents" u ∈ exec_trace (workflow_invoke env sched cv job) ∧
    exec_state (workflow_invoke env sched cv job) = put u (initial_state cv job) ∧
    dict_get (exec_state (workflow_invoke env sched cv job)) "cv_text" = VNone ∧
    exec_outcome (workflow_invoke env sched cv job) = NodeFailed n e ∧ n ∈ stage1 ∧
    _parse_cv env (exec_state (workflow_invoke env sched cv job))
      = Raise (ValueError "No CV text available") ∧
    (n = "parse_cv" → e = ValueError "No CV text available") ∧
    ((n = "parse_cv" ∧ e = ValueError "No CV text available") ∨
     (n = "analyze_job" ∧
      _analyze_job env (exec_state (workflow_invoke env sched cv job)) = Raise e)) ∧
    exec_trace (workflow_invoke env sched cv job) = pre ++ [Raised n e] ∧
    (∀ m e', Raised m e' ∉ pre) ∧
    run env sched cv job = VNone.
Proof.
  intros Hcv Hjob.
  destruct (load_documents_skips env cv job) as (u & Hload & Hskip & _); [by left|done|].
  specialize (Hskip Hcv).
  assert (Hunset : dict_get (put u (initial_state cv job)) "cv_text" = VNone)
    by (rewrite dict_get_put_notin by done; by apply initial_state_unset).
  assert (Hparse : _parse_cv env (put u (initial_state cv job))
                   = Raise (ValueError "No CV text available"))
    by (unfold _parse_cv; by rewrite Hunset).
  destruct (fails_in_stage1 env sched cv job u "parse_cv"
              (ValueError "No CV text available") Hload)
    as (Hst & n & e & Hout & Hn & He);
    [compute_done|by rewrite run_parse_cv|].
  destruct (workflow_raised_last env sched cv job n e Hout) as (pre & Htr & Hpre).
  exists u, n, e, pre. rewrite Hst. split_and!; try done.
  - by apply load_documents_returned.
  - intros ->. rewrite run_parse_cv in He. congruence.
  - elem_cases Hn.
    + left. split; [done|]. rewrite run_parse_cv in He. congruence.
    + right. split; [done|]. by rewrite run_analyze_job in He.
  - unfold run. by rewrite Hout.
Qed.

Lemma empty_job_reference env sched cv job :
  truthy (path_value job) = false → loads (world env) cv →
  ∃ u n e pre,
    _load_documents env (initial_state cv job) = Ok u ∧ "job_text" ∉ u.*1 ∧
    Returned "load_documents" u ∈ exec_trace (workflow_invoke env sched cv job) ∧
    exec_state (workflow_invoke env sched cv job) = put u (initial_state cv job) ∧
    dict_get (exec_state (workflow_invoke env sched cv job)) "job_text" = VNone ∧
    exec_outcome (workflow_invoke env sched cv job) = NodeFailed n e ∧ n ∈ stage1 ∧
    _analyze_job env (exec_state (workflow_invoke env sched cv job))
      = Raise (ValueError "No job description text available") ∧
    (n = "analyze_job" → e = ValueError "No job description text available") ∧
    ((n = "analyze_job" ∧ e = ValueError "No job description text available") ∨
     (n = "parse_cv" ∧
      _parse_cv env (exec_state (workflow_invoke env sched cv job)) = Raise e)) ∧
    exec_trace (workflow_invoke env sched cv job) = pre ++ [Raised n e] ∧
    (∀ m e', Raised m e' ∉ pre) ∧
    run env sched cv job = VNone.
Proof.
  intros Hjob Hcv.
  destruct (load_documents_skips env cv job) as (u & Hload & _ & Hskip); [done|by left|].
  specialize (Hskip Hjob).
  assert (Hunset : dict_get (put u (initial_state cv job)) "job_text" = VNone)
    by (rewrite dict_get_put_notin by done; by apply initial_state_unset).
  assert (Hparse : _analyze_job env (put u (initial_state cv job))
                   = Raise (ValueError "No job description text available"))
    by (unfold _analyze_job; by rewrite Hunset).
  destruct (fails_in_stage1 env sched cv job u "analyze_job"
              (ValueError "No job description text available") Hload)
    as (Hst & n & e & Hout & Hn & He);
    [compute_done|by rewrite run_analyze_job|].
  destruct (workflow_raised_last env sched cv job n e Hout) as (pre & Htr & Hpre).
  exists u, n, e, pre. rewrite Hst. split_and!; try done.
  - by apply load_documents_returned.
  - intros ->. rewrite run_analyze_job in He. congruence.
  - elem_cases Hn.
    + right. split; [done|]. by rewrite run_parse_cv in He.
    + left. split; [done|]. rewrite run_analyze_job in He. congruence.
  - unfold run. by rewrite Hout.
Qed.

(** C10, as amended: when the CV reference is empty or [None] and the job
    reference loads (it is empty too, or [parse_document] returns its text),
    [load_documents] returns without a value for [cv_text], the slot is
    still unset on the state the run ends in, and the run fails in the next
    stage, where [parse_cv] raises [ValueError("No CV text available")] on
    that state.  The node the run stops on is [parse_cv], with that error,
    or it is [analyze_job], which then raised as well, on the same state,
    the error the run stops on, and completed first: the exception of the
    node the run stops on is the last event of the trace, and no other node
    has raised before it.  The same holds with the two documents exchanged.
    [run] returns [None]. *)
Theorem empty_reference_fails_after_loading env sched cv job :
  (truthy (path_value cv) = false → loads (world env) job →
   ∃ u n e pre,
     _load_documents env (initial_state cv job) = Ok u ∧ "cv_text" ∉ u.*1 ∧
     Returned "load_documents" u ∈ exec_trace (workflow_invoke env sched cv job) ∧
     exec_state (workflow_invoke env sched cv job) = put u (initial_state cv job) ∧
     dict_get (exec_state (workflow_invoke env sched cv job)) "cv_text" = VNone ∧
     exec_outcome (workflow_invoke env sched cv job) = NodeFailed n e ∧ n ∈ stage1 ∧
     _parse_cv env (exec_state (workflow_invoke env sched cv job))
       = Raise (ValueError "No CV text available") ∧
     (n = "parse_cv" → e = ValueError "No CV text available") ∧
     ((n = "parse_cv" ∧ e = ValueError "No CV text available") ∨
      (n = "analyze_job" ∧
       _analyze_job env (exec_state (workflow_invoke env sched cv job)) = Raise e)) ∧
     exec_trace (workflow_invoke env sched cv job) = pre ++ [Raised n e] ∧
     (∀ m e', Raised m e' ∉ pre) ∧
     run env sched cv job = VNone) ∧
  (truthy (path_value job) = false → loads (world env) cv →
   ∃ u n e pre,
     _load_documents env (initial_state cv job) = Ok u ∧ "job_text" ∉ u.*1 ∧
     Returned "load_documents" u ∈ exec_trace (workflow_invoke env sched cv job) ∧
     exec_state (workflow_invoke env sched cv job) = put u (initial_state cv job) ∧
     dict_get (exec_state (workflow_invoke env sched cv job)) "job_text" = VNone ∧
     exec_outcome (workflow_invoke env sched cv job) = NodeFailed n e ∧ n ∈ stage1 ∧
     _analyze_job env (exec_state (workflow_invoke env sched cv job))
       = Raise (ValueError "No job description text available") ∧
     (n = "analyze_job" → e = ValueError "No job description text available") ∧
     ((n = "analyze_job" ∧ e = ValueError "No job description text available") ∨
      (n = "parse_cv" ∧
       _parse_cv env (exec_state (workflow_invoke env sched cv job)) = Raise e)) ∧
     exec_trace (workflow_invoke env sched cv job) = pre ++ [Raised n e] ∧
     (∀ m e', Raised m e' ∉ pre) ∧
     run env sched cv job = VNone).
Proof. split; [apply empty_cv_reference|apply empty_job_reference]. Qed.

Lemma empty_reference_fails_after_loading_witness :
  (truthy (path_value None) = false ∧
   loads (world (stub_env "strong_match")) (Some "job.txt") ∧
   exec_outcome (workflow_invoke (stub_env "strong_match") in_order None (Some "job.txt"))
     = NodeFailed "parse_cv" (ValueError "No CV text available") ∧
   ∃ u,
     _load_documents (stub_env "strong_match") (initial_state None (Some "job.txt")) = Ok u ∧
     "cv_text" ∉ u.*1) ∧
  (loads (world failing_job_env) (Some "job.txt") ∧
   exec_outcome (workflow_invoke failing_job_env reversed None (Some "job.txt"))
     = NodeFailed "analyze_job" extraction_failure ∧
   _parse_cv failing_job_env
     (exec_state (workflow_invoke failing_job_env reversed None (Some "job.txt")))
     = Raise (ValueError "No CV text available") ∧
   _analyze_job failing_job_env
     (exec_state (workflow_invoke failing_job_env reversed None (Some "job.txt")))
     = Raise extraction_failure).
Proof.
  assert (Hempty : truthy (path_value None) = false) by reflexivity.
  assert (Hloads : loads (world (stub_env "strong_match")) (Some "job.txt"))
    by (right; eexists; vm_compute; reflexivity).
  assert (Hloads' : loads (world failing_job_env) (Some "job.txt"))
    by (right; eexists; vm_compute; reflexivity).
  split.
  - split_and!; [exact Hempty|exact Hloads|..].
    + destruct (proj1 (empty_reference_fails_after_loading (stub_env "strong_match")
                         in_order None (Some "job.txt")) Hempty Hloads)
        as (u & n & e & pre & _ & _ & _ & _ & _ & Hout & _ & _ & _ & Hcase & _).
      rewrite Hout.
      destruct Hcase as [[-> ->]|[-> Hjob]]; [reflexivity|].
      exfalso. vm_compute in Hjob. discriminate Hjob.
    + destruct (proj1 (empty_reference_fails_after_loading (stub_env "strong_match")
                         in_order None (Some "job.txt")) Hempty Hloads)
        as (u & n & e & pre & Hu & Hnot & _).
      by exists u.
  - destruct (proj1 (empty_reference_fails_after_loading failing_job_env reversed
                       None (Some "job.txt")) Hempty Hloads')
      as (u & n & e & pre & _ & _ & _ & _ & _ & Hout & _ & Hparse & _ & Hcase & _).
    split_and!; [exact Hloads'| |exact Hparse|].
    + vm_compute. reflexivity.
    + assert (Hn : exec_outcome (workflow_invoke failing_job_env reversed
                                   None (Some "job.txt"))
                   = NodeFailed "analyze_job" extraction_failure)
        by (vm_compute; reflexivity).
      rewrite Hn in Hout. injection Hout as <- <-.
      destruct Hcase as [[? _]|[_ Hjob]]; [done|exact Hjob].
Defined.

(** C10, as stated, fails: with an empty CV reference and a job reference
    that does not resolve, [load_documents] does not complete; it raises. *)
Lemma empty_reference_fails_at_loading :
  truthy (path_value (Some "")) = false ∧
  _load_documents (stub_env "strong_match") (initial_state (Some "") (Some "missing.txt"))
    = Raise (FileNotFoundError "File not found: missing.txt") ∧
  exec_outcome (workflow_invoke (stub_env "strong_match") in_order
                  (Some "") (Some "missing.txt"))
    = NodeFailed "load_documents" (FileNotFoundError "File not found: missing.txt").
Proof. split_and!; vm_compute; reflexivity. Qed.

(** ** The document loader *)

(** C6, as amended: [parse_document] raises [FileNotFoundError] when the
    path does not exist; it raises [ValueError("Unsupported file format:
    ...")] when the path exists and its lower-cased suffix is none of .pdf,
    .docx, .txt, .md and .json; otherwise it returns what the reader of that
    format returns: the text, or the error the reader raises. *)
Theorem parse_document_outcomes w file_path :
  (path_exists w file_path = false →
   parse_document w file_path
   = Raise (FileNotFoundError ("File not found: " +:+ file_path))) ∧
  (path_exists w file_path = true →
   lower (path_suffix w file_path) ∉ recognized_extensions →
   parse_document w file_path
   = Raise (ValueError ("Unsupported file format: " +:+ lower (path_suffix w file_path)))) ∧
  (path_exists w file_path = true →
   lower (path_suffix w file_path) ∈ recognized_extensions →
   ∃ reader, reader_for w (lower (path_suffix w file_path)) = Some reader ∧
             parse_document w file_path = reader file_path).
Proof.
  unfold parse_document, recognized_extensions, reader_for. split_and!.
  - by intros ->.
  - intros -> Hext. cbn [negb existsb]. cbv zeta.
    repeat match goal with
           | |- context [String.eqb ?a ?b] =>
               destruct (String.eqb_spec a b) as [Heq|_];
               [exfalso; apply Hext; rewrite Heq, !elem_of_cons; tauto|]
           end.
    done.
  - intros -> Hext. cbn [negb]. cbv zeta.
    remember (lower (path_suffix w file_path)) as ext eqn:Hdef. clear Hdef.
    elem_cases Hext; eexists; (split; [reflexivity|reflexivity]).
Qed.

Lemma parse_document_outcomes_witness :
  path_exists (text_files stub_files) "cv.txt" = true ∧
  lower (path_suffix (text_files stub_files) "cv.txt") ∈ recognized_extensions ∧
  parse_document (text_files stub_files) "cv.txt" = parse_txt (text_files stub_files) "cv.txt".
Proof.
  assert (H1 : path_exists (text_files stub_files) "cv.txt" = true) by reflexivity.
  assert (H2 : lower (path_suffix (text_files stub_files) "cv.txt") ∈ recognized_extensions)
    by compute_done.
  split_and!; [exact H1|exact H2|].
  destruct (proj2 (proj2 (parse_document_outcomes (text_files stub_files) "cv.txt")) H1 H2)
    as (reader & Hreader & ->).
  vm_compute in Hreader. by injection Hreader as <-.
Defined.

(** C6, as stated, fails: a file that exists and is named .json, with a
    content that is not JSON, gives neither of the two errors nor a text. *)
Lemma parse_document_reader_error :
  path_exists json_world "job.json" = true ∧
  lower (path_suffix json_world "job.json") ∈ recognized_extensions ∧
  parse_document json_world "job.json"
  = Raise (Exc "JSONDecodeError" "Expecting value: line 1 column 1 (char 0)").
Proof. split_and!; [reflexivity|compute_done|vm_compute; reflexivity]. Qed.

(** ** The overall score *)

Lemma run_report env sched cv job r :
  run env sched cv job = VAssessmentResult r →
  ∃ s, reached env (initial_state cv job) 3 s ∧
       FinalScorerAgent.create_final_assessment (agents env)
         (AssessmentResult.cv_data r) (AssessmentResult.job_description r)
         (AssessmentResult.skill_match r) (AssessmentResult.experience_evaluation r)
         (AssessmentResult.culture_fit r) = Ok r.
Proof.
  unfold run. intros Hrun.
  destruct (exec_outcome (workflow_invoke env sched cv job)) eqn:Hout; [|done..].
  apply workflow_succeeded in Hout as (s1 & s2 & s3 & Hl & Hp & He & Hf).
  destruct Hf as (cv' & job' & sk & ex & cu & r' & _ & _ & _ & _ & _ & Hr & Hst).
  rewrite Hst, dict_get_insert_eq in Hrun. injection Hrun as ->.
  exists s3. split; [by exists s1, s2|].
  by destruct (create_final_assessment_fields _ _ _ _ _ _ _ Hr) as (-> & -> & -> & -> & ->).
Qed.

(** C4, as amended: the overall score of the report [run] returns is the
    binary64 number that [match_score * 0.4 + experience_score * 0.4 +
    culture_fit_score * 0.2] evaluates to, left to right, on the scores of
    the three evaluation records the report holds; the recommendation is the
    label the language model answers when given the records and that score:
    the code compares the score with no threshold. *)
Theorem overall_score_weighted_sum env sched cv job r :
  run env sched cv job = VAssessmentResult r →
  AssessmentResult.overall_score r
  = (SkillMatchResult.match_score (AssessmentResult.skill_match r)
       * FinalScorerAgent.w04
     + ExperienceEvaluation.experience_score (AssessmentResult.experience_evaluation r)
       * FinalScorerAgent.w04
     + CultureFitAssessment.culture_fit_score (AssessmentResult.culture_fit r)
       * FinalScorerAgent.w02)%float ∧
  ∃ details,
    final_scorer_details (agents env)
      (AssessmentResult.cv_data r) (AssessmentResult.job_description r)
      (AssessmentResult.skill_match r) (AssessmentResult.experience_evaluation r)
      (AssessmentResult.culture_fit r) (AssessmentResult.overall_score r) = Ok details ∧
    AssessmentResult.recommendation r = AssessmentDetails.recommendation details.
Proof.
  intros (s & _ & Hr)%run_report. revert Hr.
  unfold FinalScorerAgent.create_final_assessment. cbv zeta.
  destruct (final_scorer_details _ _ _ _ _ _ _) as [details|] eqn:Hd; [|done].
  cbn [mbind result_bind]. intros [= Hr].
  rewrite <- Hr at 1. cbn [AssessmentResult.overall_score]. split; [done|].
  exists details. split.
  - rewrite <- Hd. f_equal. by rewrite <- Hr at 1.
  - by rewrite <- Hr at 1.
Qed.

Lemma overall_score_weighted_sum_witness :
  ∃ r,
    run (stub_env "no_match") in_order (Some "cv.txt") (Some "job.txt")
      = VAssessmentResult r ∧
    AssessmentResult.overall_score r
    = (f09 * FinalScorerAgent.w04 + f08 * FinalScorerAgent.w04
       + f07 * FinalScorerAgent.w02)%float ∧
    AssessmentResult.recommendation r = "no_match".
Proof.
  eexists. split; [vm_compute; reflexivity|].
  split.
  - refine (proj1 (overall_score_weighted_sum (stub_env "no_match") in_order
                     (Some "cv.txt") (Some "job.txt") _ _)).
    vm_compute. reflexivity.
  - reflexivity.
Defined.

(** C4, as stated, fails: with the scores 0.9, 0.8 and 0.7 the overall
    score of the report is not 0.82 but the second binary64 number above
    it, 0.8200000000000002. *)
Lemma stub_overall_score_is_not_082 :
  ∃ r,
    run (stub_env "strong_match") in_order (Some "cv.txt") (Some "job.txt")
      = VAssessmentResult r ∧
    SkillMatchResult.match_score (AssessmentResult.skill_match r) = f09 ∧
    ExperienceEvaluation.experience_score (AssessmentResult.experience_evaluation r) = f08 ∧
    CultureFitAssessment.culture_fit_score (AssessmentResult.culture_fit r) = f07 ∧
    PrimFloat.eqb (AssessmentResult.overall_score r) f082 = false ∧
    AssessmentResult.overall_score r = next_up (next_up f082).
Proof. eexists. split_and!; vm_compute; reflexivity. Qed.

(** ** Rounding to binary64 *)

Lemma digits2_pos_bounds m :
  (2 ^ (Zpos (digits2_pos m) - 1) ≤ Zpos m < 2 ^ Zpos (digits2_pos m))%Z.
Proof.
  induction m as [m IH|m IH|]; cbn [digits2_pos].
  - rewrite Pos2Z.inj_succ, Z.pow_succ_r by lia.
    replace (Z.succ (Zpos (digits2_pos m)) - 1)%Z
      with (Z.succ (Zpos (digits2_pos m) - 1)) by lia.
    rewrite Z.pow_succ_r by lia. lia.
  - rewrite Pos2Z.inj_succ, Z.pow_succ_r by lia.
    replace (Z.succ (Zpos (digits2_pos m)) - 1)%Z
      with (Z.succ (Zpos (digits2_pos m) - 1)) by lia.
    rewrite Z.pow_succ_r by lia. lia.
  - done.
Qed.

Lemma iter_pos_invariant {A} (f : A → A) (P : Z → A → Prop) :
  (∀ k x, (0 ≤ k)%Z → P k x → P (k + 1)%Z (f x)) →
  ∀ n k x, (0 ≤ k)%Z → P k x → P (k + Zpos n)%Z (SpecFloat.iter_pos f n x).
Proof.
  intros Hstep. induction n as [n IH|n IH|]; intros k x Hk Hx; cbn [SpecFloat.iter_pos].
  - replace (k + Zpos n~1)%Z with (k + 1 + Zpos n + Zpos n)%Z by lia.
    apply IH; [lia|]. apply IH; [lia|]. by apply Hstep.
  - replace (k + Zpos n~0)%Z with (k + Zpos n + Zpos n)%Z by lia.
    apply IH; [lia|]. by apply IH.
  - by apply Hstep.
Qed.

Lemma shr_1_inv M k mrs : (0 ≤ k)%Z → shr_inv M k mrs → shr_inv M (k + 1) (shr_1 mrs).
Proof.
  intros Hk (Hq & Hlo & Hhi & _). unfold shr_inv.
  rewrite Z.pow_add_r, Z.pow_1_r by lia.
  assert (0 < 2 ^ k)%Z by (apply Z.pow_pos_nonneg; lia).
  destruct mrs as [[|[p|p|]|p] r s]; cbn [shr_1 shr_m shr_r] in *; lia.
Qed.

Lemma shr_fexp_inv m e :
  (e ≤ fexp prec emax (Zpos (digits2_pos m) + e))%Z →
  ∃ mrs, shr_fexp prec emax (Zpos m) e loc_Exact
         = (mrs, fexp prec emax (Zpos (digits2_pos m) + e)) ∧
         shr_inv (Zpos m) (fexp prec emax (Zpos (digits2_pos m) + e) - e) mrs.
Proof.
  intros He. unfold shr_fexp, shr. cbn [Zdigits2 shr_record_of_loc].
  set (e1 := fexp prec emax (Zpos (digits2_pos m) + e)) in *.
  assert (Hinv0 : shr_inv (Zpos m) 0 {| shr_m := Zpos m; shr_r := false; shr_s := false |}).
  { unfold shr_inv. cbn [shr_m shr_r]. split_and!; try lia; done. }
  destruct (e1 - e)%Z as [|n|n] eqn:Hn; [| |lia].
  - eexists. split; [f_equal; lia|done].
  - eexists. split; [f_equal; lia|].
    apply (iter_pos_invariant shr_1 (shr_inv (Zpos m)) (shr_1_inv (Zpos m)) n 0); [lia|done].
Qed.

Lemma round_nearest_even_bounds mrs :
  let q' := round_nearest_even (shr_m mrs) (loc_of_shr_record mrs) in
  (q' = shr_m mrs ∨ (q' = shr_m mrs + 1 ∧ shr_r mrs = true))%Z.
Proof.
  destruct mrs as [q [] []]; cbn; auto. destruct (Z.even q); auto.
Qed.

(** The second shift of [binary_round_aux], on a mantissa of at most 53
    bits. *)
Lemma shr_fexp_small q e :
  (0 < q < 2 ^ 53)%Z → (emin ≤ e)%Z →
  shr_fexp prec emax q e loc_Exact = ({| shr_m := q; shr_r := false; shr_s := false |}, e).
Proof.
  intros Hq He. destruct q as [|p|p]; [lia| |lia].
  unfold shr_fexp, shr. cbn [Zdigits2 shr_record_of_loc].
  pose proof (digits2_pos_bounds p) as [Hd _].
  assert (Zpos (digits2_pos p) ≤ 53)%Z.
  { destruct (Z.le_gt_cases (Zpos (digits2_pos p)) 53) as [|Hgt]; [done|].
    assert (2 ^ 53 ≤ 2 ^ (Zpos (digits2_pos p) - 1))%Z by (apply Z.pow_le_mono_r; lia).
    lia. }
  unfold fexp, emin, prec, emax in *.
  destruct (Z.max _ _ - e)%Z eqn:Hn; [done|lia|done].
Qed.

Lemma shr_fexp_zero e :
  (emin ≤ e)%Z →
  shr_fexp prec emax 0 e loc_Exact = ({| shr_m := 0; shr_r := false; shr_s := false |}, e).
Proof.
  intros He. unfold shr_fexp, shr. cbn [Zdigits2 shr_record_of_loc].
  unfold fexp, emin, prec, emax in *.
  destruct (Z.max _ _ - e)%Z eqn:Hn; [done|lia|done].
Qed.

Lemma shr_fexp_carry e :
  (emin ≤ e)%Z →
  shr_fexp prec emax (2 ^ 53) e loc_Exact
  = ({| shr_m := 2 ^ 52; shr_r := false; shr_s := false |}, (e + 1)%Z).
Proof.
  intros He. unfold shr_fexp, shr.
  change (Zdigits2 (2 ^ 53)) with 54%Z.
  unfold fexp, emin, prec, emax in *.
  replace (Z.max (54 + e - 53) (3 - 1024 - 53) - e)%Z with 1%Z by lia.
  reflexivity.
Qed.

(** A target of the format: a canonical mantissa and exponent. *)
Lemma bounded_inv mt et :
  bounded prec emax mt et = true →
  (emin ≤ et ≤ emax - prec)%Z ∧ (Zpos mt < 2 ^ 53)%Z ∧
  ((emin < et)%Z → (2 ^ 52 ≤ Zpos mt)%Z).
Proof.
  unfold bounded, canonical_mantissa. intros [Hc Hle%Z.leb_le]%andb_prop.
  apply Z.eqb_eq in Hc.
  pose proof (digits2_pos_bounds mt) as [Hlo Hhi].
  unfold fexp, emin, prec, emax in *.
  assert (Zpos (digits2_pos mt) ≤ 53)%Z by lia.
  split_and!; try lia.
  - assert (2 ^ Zpos (digits2_pos mt) ≤ 2 ^ 53)%Z by (apply Z.pow_le_mono_r; lia). lia.
  - intros Hgt. assert (Zpos (digits2_pos mt) = 53)%Z by lia.
    replace (Zpos (digits2_pos mt) - 1)%Z with 52%Z in Hlo by lia. done.
Qed.

(** Rounding does not go over a number of the format that the exact value
    is below, nor over one whose upper midpoint the exact value is below. *)
Lemma binary_round_aux_below m e mt et lo :
  bounded prec emax mt et = true →
  (e ≤ fexp prec emax (Zpos (digits2_pos m) + e))%Z →
  (lo ≤ e)%Z → (lo ≤ et)%Z →
  (2 * Zpos m * 2 ^ (e - lo) < (2 * Zpos mt + 1) * 2 ^ (et - lo))%Z →
  below mt et (binary_round_aux prec emax false (Zpos m) e loc_Exact).
Proof.
  intros (Het & Hmt & Hnormal)%bounded_inv He Hlo1 Hlo2 Hbound.
  destruct (shr_fexp_inv m e He) as (mrs & Hshr & Hq & Hlow & Hhigh & Hr).
  unfold binary_round_aux. rewrite Hshr.
  pose proof (digits2_pos_bounds m) as [Hdlo Hdhi].
  set (d := Zpos (digits2_pos m)) in *.
  set (e1 := fexp prec emax (d + e)) in *.
  assert (He1 : (emin ≤ e1)%Z ∧ (d + e - 53 ≤ e1)%Z ∧ (e1 = emin ∨ e1 = d + e - 53)%Z)
    by (unfold e1, fexp, emin, prec, emax; lia).
  set (n := (e1 - e)%Z) in *.
  assert (Hn : (0 ≤ n)%Z) by lia.
  assert (HP : (0 < 2 ^ n)%Z) by (apply Z.pow_pos_nonneg; lia).
  assert (HL : (0 < 2 ^ (e - lo))%Z) by (apply Z.pow_pos_nonneg; lia).
  (* the quotient has at most 53 bits *)
  assert (Hq53 : (shr_m mrs < 2 ^ 53)%Z).
  { assert (2 ^ d ≤ 2 ^ (53 + n))%Z by (apply Z.pow_le_mono_r; lia).
    rewrite Z.pow_add_r in H by lia. nia. }
  assert (Hrnd : ∃ q', round_nearest_even (shr_m mrs) (loc_of_shr_record mrs) = q' ∧
                       (0 ≤ q' ≤ 2 ^ 53)%Z ∧ ((2 * q' - 1) * 2 ^ n ≤ 2 * Zpos m)%Z).
  { eexists. split; [reflexivity|].
    destruct (round_nearest_even_bounds mrs) as [Hq'|[Hq' Hrt]]; cbv zeta in Hq';
      rewrite Hq'; [|specialize (Hr Hrt)]; split; nia. }
  destruct Hrnd as (q' & -> & Hq'53 & Hrnd).
  assert (Hcase : (e1 < et)%Z ∨ (e1 = et ∧ (q' ≤ Zpos mt)%Z)).
  { destruct (Z.lt_trichotomy e1 et) as [Hlt|[Heq|Hgt]]; [by left| |exfalso].
    - right. split; [done|].
      replace (et - lo)%Z with ((e - lo) + n)%Z in Hbound by lia.
      rewrite Z.pow_add_r in Hbound by lia. nia.
    - destruct He1 as (_ & _ & [?|He1]); [lia|].
      assert (2 ^ (et - lo + 1) ≤ 2 ^ (e1 - lo))%Z by (apply Z.pow_le_mono_r; lia).
      replace (e1 - lo)%Z with ((d - 1) + (e - lo) - 52)%Z in H by lia.
      assert (2 ^ ((d - 1) + (e - lo)) = 2 ^ ((d - 1) + (e - lo) - 52) * 2 ^ 52)%Z
        by (rewrite <- Z.pow_add_r by lia; f_equal; lia).
      rewrite Z.pow_add_r in H0 by lia.
      rewrite Z.pow_add_r, Z.pow_1_r in H by lia.
      assert (0 < 2 ^ (et - lo))%Z by (apply Z.pow_pos_nonneg; lia).
      assert (2 ^ 52 * 2 = 2 ^ 53)%Z by done.
      nia. }
  destruct (Z.eq_dec q' 0%Z) as [->|Hne0]; [rewrite shr_fexp_zero by lia; done|].
  destruct (Z.eq_dec q' (2 ^ 53)%Z) as [->|Hne53].
  - rewrite shr_fexp_carry by lia. cbn [shr_m].
    change (2 ^ 52)%Z with (Zpos 4503599627370496). cbv iota.
    destruct Hcase as [Hlt|[_ Hle]]; [|lia].
    replace (e1 + 1 <=? emax - prec)%Z with true by (symmetry; apply Z.leb_le; lia).
    cbn [below].
    destruct (Z.eq_dec (e1 + 1)%Z et) as [Heq|]; [right|left; lia].
    split; [done|]. apply Hnormal. lia.
  - rewrite shr_fexp_small by lia. cbn [shr_m].
    destruct q' as [|p|p]; [done| |lia].
    replace (e1 <=? emax - prec)%Z with true by (symmetry; apply Z.leb_le; lia).
    cbn [below]. lia.
Qed.

Lemma below_mono m1 e1 mt et f :
  (e1 < et)%Z ∨ (e1 = et ∧ (Zpos m1 ≤ Zpos mt)%Z) →
  below m1 e1 f → below mt et f.
Proof. destruct f as [| | |[] m e]; cbn [below]; try done. lia. Qed.

(** The value of a number below a normal number of the format is at most
    its value. *)
Lemma below_value mt et m e :
  bounded prec emax m e = true → bounded prec emax mt et = true →
  (2 ^ 52 ≤ Zpos mt)%Z →
  below mt et (S754_finite false m e) →
  (Zpos m * 2 ^ (e - emin) ≤ Zpos mt * 2 ^ (et - emin))%Z.
Proof.
  intros (He & Hm & _)%bounded_inv (Het & Hmt & _)%bounded_inv Hnormal [Hlt|[-> Hle]].
  - replace (et - emin)%Z with ((e - emin) + (et - e))%Z by lia.
    rewrite Z.pow_add_r by lia.
    assert (0 < 2 ^ (e - emin))%Z by (apply Z.pow_pos_nonneg; lia).
    assert (2 ^ 1 ≤ 2 ^ (et - e))%Z by (apply Z.pow_le_mono_r; lia).
    set (A := (2 ^ (e - emin))%Z) in *. set (B := (2 ^ (et - e))%Z) in *.
    change (2 ^ 1)%Z with 2%Z in *.
    assert (Zpos m * A ≤ 2 ^ 53 * A)%Z by (apply Z.mul_le_mono_nonneg_r; lia).
    assert (2 ^ 53 * A = 2 ^ 52 * (2 * A))%Z by (change (2 ^ 53)%Z with (2 ^ 52 * 2)%Z; lia).
    assert (2 ^ 52 * (2 * A) ≤ Zpos mt * (2 * A))%Z by (apply Z.mul_le_mono_nonneg_r; lia).
    assert (Zpos mt * (2 * A) ≤ Zpos mt * (A * B))%Z
      by (apply Z.mul_le_mono_nonneg_l; [lia|nia]).
    lia.
  - assert (0 < 2 ^ (et - emin))%Z by (apply Z.pow_pos_nonneg; lia). nia.
Qed.

Lemma iter_xO_value m d : Zpos (Pos.iter xO m d) = (Zpos m * 2 ^ Zpos d)%Z.
Proof.
  induction d as [|d IH] using Pos.peano_ind.
  - cbn [Pos.iter]. lia.
  - rewrite Pos.iter_succ, Pos2Z.inj_succ, Z.pow_succ_r by lia. lia.
Qed.

Lemma iter_xO_digits m d :
  Zpos (digits2_pos (Pos.iter xO m d)) = (Zpos (digits2_pos m) + Zpos d)%Z.
Proof.
  induction d as [|d IH] using Pos.peano_ind.
  - cbn [Pos.iter digits2_pos]. lia.
  - rewrite Pos.iter_succ. cbn [digits2_pos]. lia.
Qed.

(** Aligning a mantissa on a lower exponent keeps the value. *)
Lemma shl_align_value m e e' :
  (e' ≤ e)%Z →
  snd (shl_align m e e') = e' ∧
  Zpos (fst (shl_align m e e')) = (Zpos m * 2 ^ (e - e'))%Z ∧
  Zpos (digits2_pos (fst (shl_align m e e'))) = (Zpos (digits2_pos m) + (e - e'))%Z.
Proof.
  intros Hle. unfold shl_align.
  destruct (e' - e)%Z as [|d|d] eqn:Hd; [|lia|]; cbn [fst snd].
  - replace (e - e')%Z with 0%Z by lia. split_and!; lia.
  - replace (e - e')%Z with (Zpos d) by lia.
    rewrite iter_xO_value, iter_xO_digits. done.
Qed.

Lemma shl_align_above m e e' : (e ≤ e')%Z → shl_align m e e' = (m, e).
Proof. intros Hle. unfold shl_align. destruct (e' - e)%Z eqn:Hd; [done|done|lia]. Qed.

Lemma binary_round_below s ez mt et :
  bounded prec emax mt et = true → (emin ≤ ez)%Z →
  (2 * Zpos s * 2 ^ (ez - emin) < (2 * Zpos mt + 1) * 2 ^ (et - emin))%Z →
  below mt et (binary_round prec emax false s ez).
Proof.
  intros Hmt Hez Hbound. unfold binary_round.
  pose proof (bounded_inv _ _ Hmt) as (Het & _ & _).
  set (e1 := fexp prec emax (Zpos (digits2_pos s) + ez)).
  assert (He1 : (emin ≤ e1)%Z) by (unfold e1, fexp, emin, prec, emax; lia).
  destruct (Z.le_gt_cases ez e1) as [Hle|Hgt].
  - rewrite shl_align_above by done.
    apply (binary_round_aux_below s ez mt et emin); try done; lia.
  - destruct (shl_align_value s ez e1) as (Hsnd & Hfst & Hdig); [lia|].
    destruct (shl_align s ez e1) as [mz ez'] eqn:Halign. cbn [fst snd] in *. subst ez'.
    cbv beta iota.
    apply (binary_round_aux_below mz e1 mt et emin); try done; try lia.
    + rewrite Hdig. replace (Zpos (digits2_pos s) + (ez - e1) + e1)%Z
        with (Zpos (digits2_pos s) + ez)%Z by lia. fold e1. lia.
    + rewrite Hfst.
      replace (ez - emin)%Z with ((ez - e1) + (e1 - emin))%Z in Hbound by lia.
      rewrite Z.pow_add_r in Hbound by lia. lia.
Qed.

(** The sum of two numbers of the format, rounded. *)
Lemma SFadd_finite_below mx ex my ey mt et :
  bounded prec emax mx ex = true → bounded prec emax my ey = true →
  bounded prec emax mt et = true →
  (2 * (Zpos mx * 2 ^ (ex - emin) + Zpos my * 2 ^ (ey - emin))
   < (2 * Zpos mt + 1) * 2 ^ (et - emin))%Z →
  below mt et (SF64add (S754_finite false mx ex) (S754_finite false my ey)).
Proof.
  intros (Hex & _ & _)%bounded_inv (Hey & _ & _)%bounded_inv Hmt Hbound.
  unfold SF64add, SFadd. cbv zeta. cbn [cond_Zopp].
  destruct (shl_align_value mx ex (Z.min ex ey)) as (_ & Hx & _); [lia|].
  destruct (shl_align_value my ey (Z.min ex ey)) as (_ & Hy & _); [lia|].
  cbn [Z.add binary_normalize].
  apply binary_round_below; [done|lia|].
  rewrite Pos2Z.inj_add, Hx, Hy, Z.mul_add_distr_l, Z.mul_add_distr_r.
  rewrite <- !Z.mul_assoc, <- !Z.pow_add_r by lia.
  replace (ex - Z.min ex ey + (Z.min ex ey - emin))%Z with (ex - emin)%Z by lia.
  replace (ey - Z.min ex ey + (Z.min ex ey - emin))%Z with (ey - emin)%Z by lia.
  lia.
Qed.

Lemma SFadd_below x y m1 e1 m2 e2 mt et :
  valid_binary x = true → valid_binary y = true →
  below m1 e1 x → below m2 e2 y →
  bounded prec emax m1 e1 = true → bounded prec emax m2 e2 = true →
  bounded prec emax mt et = true →
  (2 ^ 52 ≤ Zpos m1)%Z → (2 ^ 52 ≤ Zpos m2)%Z →
  (e1 < et)%Z ∨ (e1 = et ∧ (Zpos m1 ≤ Zpos mt)%Z) →
  (e2 < et)%Z ∨ (e2 = et ∧ (Zpos m2 ≤ Zpos mt)%Z) →
  (2 * (Zpos m1 * 2 ^ (e1 - emin) + Zpos m2 * 2 ^ (e2 - emin))
   < (2 * Zpos mt + 1) * 2 ^ (et - emin))%Z →
  below mt et (SF64add x y).
Proof.
  intros Hvx Hvy Hx Hy Hb1 Hb2 Hbt Hn1 Hn2 Hle1 Hle2 Hbound.
  destruct x as [sx| | |[] mx ex], y as [sy| | |[] my ey]; try done.
  - by destruct sx, sy.
  - by apply (below_mono m2 e2).
  - by apply (below_mono m1 e1).
  - apply SFadd_finite_below; try done.
    pose proof (below_value _ _ _ _ Hvx Hb1 Hn1 Hx).
    pose proof (below_value _ _ _ _ Hvy Hb2 Hn2 Hy).
    lia.
Qed.

(** The product of a number of the unit interval and a normal number of the
    format, rounded. *)
Lemma SFmul_below a mc ec :
  valid_binary a = true → below 4503599627370496 (-52) a →
  bounded prec emax mc ec = true → (2 ^ 52 ≤ Zpos mc)%Z →
  below mc ec (SF64mul a (S754_finite false mc ec)).
Proof.
  intros Hva Ha Hbc Hnc.
  destruct a as [sa| | |[] ma ea]; try done.
  unfold SF64mul, SFmul. cbn [xorb].
  apply bounded_inv in Hva as (Hea & Hma & _).
  pose proof (bounded_inv _ _ Hbc) as (Hec & Hmc & _).
  pose proof (digits2_pos_bounds (ma * mc)) as [_ Hd].
  rewrite Pos2Z.inj_mul in Hd.
  assert (Hle : (Zpos ma ≤ 2 ^ (- ea))%Z ∧ (ea ≤ -52)%Z).
  { destruct Ha as [Hlt|[-> Hle]]; [|by split].
    split; [|lia].
    assert (2 ^ 53 ≤ 2 ^ (- ea))%Z by (apply Z.pow_le_mono_r; lia). lia. }
  destruct Hle as [Hle Hea52].
  apply (binary_round_aux_below _ _ mc ec (ea + ec)); try done; try lia.
  - assert (53 ≤ Zpos (digits2_pos (ma * mc)))%Z.
    { destruct (Z.le_gt_cases 53 (Zpos (digits2_pos (ma * mc)))) as [|Hgt]; [done|].
      assert (2 ^ Zpos (digits2_pos (ma * mc)) ≤ 2 ^ 52)%Z by (apply Z.pow_le_mono_r; lia).
      nia. }
    unfold fexp, emin, prec, emax. lia.
  - rewrite Pos2Z.inj_mul, Z.sub_diag, Z.pow_0_r.
    replace (ec - (ea + ec))%Z with (- ea)%Z by lia. nia.
Qed.

Lemma Prim2SF_zero : Prim2SF 0 = S754_zero false.
Proof. vm_compute. reflexivity. Qed.

Lemma Prim2SF_one : Prim2SF 1 = S754_finite false 4503599627370496 (-52).
Proof. vm_compute. reflexivity. Qed.

Lemma Prim2SF_w04 :
  Prim2SF FinalScorerAgent.w04 = S754_finite false 7205759403792794 (-54).
Proof. vm_compute. reflexivity. Qed.

Lemma Prim2SF_w02 :
  Prim2SF FinalScorerAgent.w02 = S754_finite false 7205759403792794 (-55).
Proof. vm_compute. reflexivity. Qed.

Lemma SFleb_finite m e mt et :
  SFleb (S754_finite false m e) (S754_finite false mt et) = true ↔
  (e < et)%Z ∨ (e = et ∧ (Zpos m ≤ Zpos mt)%Z).
Proof.
  unfold SFleb, SFcompare. rewrite Pos.compare_cont_spec.
  destruct (Z.compare_spec e et) as [->|Hlt|Hgt];
    [destruct (Pos.compare_spec m mt); cbn [Pos.switch_Eq]|..]; split; try done; lia.
Qed.

Lemma SFleb_zero_l f :
  SFleb (S754_zero false) f = true →
  match f with
  | S754_zero _ | S754_finite false _ _ | S754_infinity false => True
  | _ => False
  end.
Proof. by destruct f as [s|[]| |[] m e]. Qed.

(** A score of the unit interval, as a number of the format. *)
Lemma in_unit_interval_below x :
  in_unit_interval x = true →
  valid_binary (Prim2SF x) = true ∧ below 4503599627370496 (-52) (Prim2SF x).
Proof.
  unfold in_unit_interval. rewrite !leb_spec, Prim2SF_zero, Prim2SF_one.
  intros [H0%SFleb_zero_l H1]%andb_prop.
  split; [apply Prim2SF_valid|].
  destruct (Prim2SF x) as [s|[]| |[] m e]; try done.
  by apply SFleb_finite.
Qed.

Lemma below_in_unit_interval x :
  below 4503599627370496 (-52) (Prim2SF x) → in_unit_interval x = true.
Proof.
  unfold in_unit_interval. rewrite !leb_spec, Prim2SF_zero, Prim2SF_one.
  destruct (Prim2SF x) as [s|s| |[] m e]; try done.
  intros Hb. apply andb_true_intro. split; [done|]. by apply SFleb_finite.
Qed.

(** A score of the unit interval times a weight. *)
Lemma mul_weight_below x w mc ec :
  Prim2SF w = S754_finite false mc ec →
  bounded prec emax mc ec = true → (2 ^ 52 ≤ Zpos mc)%Z →
  in_unit_interval x = true →
  below mc ec (Prim2SF (x * w)).
Proof.
  intros Hw Hb Hn [Hv Hx]%in_unit_interval_below.
  rewrite mul_spec, Hw. by apply SFmul_below.
Qed.

Lemma add_float_below x y m1 e1 m2 e2 mt et :
  below m1 e1 (Prim2SF x) → below m2 e2 (Prim2SF y) →
  bounded prec emax m1 e1 = true → bounded prec emax m2 e2 = true →
  bounded prec emax mt et = true →
  (2 ^ 52 ≤ Zpos m1)%Z → (2 ^ 52 ≤ Zpos m2)%Z →
  (e1 < et)%Z ∨ (e1 = et ∧ (Zpos m1 ≤ Zpos mt)%Z) →
  (e2 < et)%Z ∨ (e2 = et ∧ (Zpos m2 ≤ Zpos mt)%Z) →
  (2 * (Zpos m1 * 2 ^ (e1 - emin) + Zpos m2 * 2 ^ (e2 - emin))
   < (2 * Zpos mt + 1) * 2 ^ (et - emin))%Z →
  below mt et (Prim2SF (x + y)).
Proof.
  intros. rewrite add_spec.
  by apply (SFadd_below _ _ m1 e1 m2 e2); try apply Prim2SF_valid.
Qed.

(** The weighted sum of three scores of the unit interval is in the unit
    interval: 0.4 + 0.4 is 0.8 exactly, and 0.8 + 0.2, which is above 1 by
    less than half a unit in the last place, rounds to 1. *)
Lemma weighted_sum_in_unit_interval s e c :
  in_unit_interval s = true → in_unit_interval e = true → in_unit_interval c = true →
  in_unit_interval (s * FinalScorerAgent.w04 + e * FinalScorerAgent.w04
                    + c * FinalScorerAgent.w02) = true.
Proof.
  intros Hs He Hc.
  pose proof (mul_weight_below s _ _ _ Prim2SF_w04 eq_refl ltac:(by vm_compute) Hs) as H1.
  pose proof (mul_weight_below e _ _ _ Prim2SF_w04 eq_refl ltac:(by vm_compute) He) as H2.
  pose proof (mul_weight_below c _ _ _ Prim2SF_w02 eq_refl ltac:(by vm_compute) Hc) as H3.
  apply below_in_unit_interval.
  apply (add_float_below _ _ 7205759403792794 (-53) 7205759403792794 (-55));
    [|done|done|done|done|by vm_compute|by vm_compute|left; lia|left; lia|by vm_compute].
  apply (add_float_below _ _ 7205759403792794 (-54) 7205759403792794 (-54));
    [done|done|done|done|done|by vm_compute|by vm_compute|left; lia|left; lia|by vm_compute].
Qed.

(** C9: when the three scores are in the unit interval, so is the overall
    score of the report that [create_final_assessment] builds. *)
Theorem overall_score_in_unit_interval a cv job sk ex cu r :
  in_unit_interval (SkillMatchResult.match_score sk) = true →
  in_unit_interval (ExperienceEvaluation.experience_score ex) = true →
  in_unit_interval (CultureFitAssessment.culture_fit_score cu) = true →
  FinalScorerAgent.create_final_assessment a cv job sk ex cu = Ok r →
  in_unit_interval (AssessmentResult.overall_score r) = true.
Proof.
  intros H1 H2 H3.
  unfold FinalScorerAgent.create_final_assessment. cbv zeta.
  destruct (final_scorer_details _ _ _ _ _ _ _) as [details|]; [|done].
  cbn [mbind result_bind]. intros [= <-]. cbn [AssessmentResult.overall_score].
  by apply weighted_sum_in_unit_interval.
Qed.

Lemma overall_score_in_unit_interval_witness :
  ∃ r,
    FinalScorerAgent.create_final_assessment (stub_agents "strong_match")
      stub_cv stub_job stub_skill_match stub_experience stub_culture_fit = Ok r ∧
    in_unit_interval (AssessmentResult.overall_score r) = true.
Proof.
  eexists. split; [reflexivity|].
  apply (overall_score_in_unit_interval (stub_agents "strong_match")
           stub_cv stub_job stub_skill_match stub_experience stub_culture_fit);
    vm_compute; reflexivity.
Defined.

(** * Further properties of the workflow *)

(** ** Which nodes are dispatched *)

Lemma dispatch_log_app tr1 tr2 :
  dispatch_log (tr1 ++ tr2) = dispatch_log tr1 ++ dispatch_log tr2.
Proof. apply omap_app. Qed.

Lemma dispatch_log_dispatched (active : list string) s :
  dispatch_log (map (fun n => Dispatched n s) active) = active.
Proof. induction active as [|a active IH]; [done|]. cbn. by f_equal. Qed.

Lemma dispatch_log_task_events tr : Forall is_task_event tr → dispatch_log tr = [].
Proof.
  induction 1 as [|ev tr Hev _ IH]; [done|].
  destruct ev; try done; exact IH.
Qed.

Lemma dispatch_log_returned outs : dispatch_log (returned outs) = [].
Proof. by induction outs. Qed.

Lemma dispatch_log_wrote s name u : dispatch_log (wrote s name u) = [].
Proof. by induction u. Qed.

Lemma dispatch_log_wrote_all s outs : dispatch_log (wrote_all s outs) = [].
Proof.
  induction outs as [|[n u] outs IH]; [done|].
  by rewrite wrote_all_cons, dispatch_log_app, dispatch_log_wrote, IH.
Qed.

Lemma dispatch_log_published s outs rest :
  rest ≡ₚ returned outs ++ wrote_all s outs → dispatch_log rest = [].
Proof.
  intros Hperm. apply Permutation_nil_r. unfold dispatch_log. rewrite Hperm.
  fold (dispatch_log (returned outs ++ wrote_all s outs)).
  by rewrite dispatch_log_app, dispatch_log_returned, dispatch_log_wrote_all.
Qed.

(** The nodes dispatched in an execution are those of the stages up to the
    one the execution stopped in, in the order of the stages. *)
Lemma stages_spec_dispatch_log g stages s ex :
  stages_spec g stages s ex →
  match exec_outcome ex with
  | Completed => dispatch_log (exec_trace ex) = concat stages
  | NodeFailed n e =>
      ∃ k active, stages !! k = Some active ∧ n ∈ active ∧
                  dispatch_log (exec_trace ex) = concat (take (S k) stages)
  | EngineFailed _ => False
  end.
Proof.
  induction 1 as [s|active rest s s' evs ex Hstage Hrest IH|active rest s n e evs Hstage];
    cbn [exec_outcome exec_trace].
  - done.
  - apply stage_spec_ok_inv in Hstage as (outs & rest0 & Hc & -> & -> & Hperm).
    rewrite !dispatch_log_app, dispatch_log_dispatched,
      (dispatch_log_published _ _ _ Hperm), app_nil_r.
    destruct (exec_outcome ex) as [|n e|e]; [by rewrite IH| |done].
    destruct IH as (k & active1 & Hk & Hn & ->).
    by exists (S k), active1.
  - apply stage_spec_failed_inv in Hstage as (rest0 & Hin & Hn & -> & Hev & _).
    exists 0, active. split_and!; [done|done|].
    rewrite dispatch_log_app, dispatch_log_dispatched, dispatch_log_task_events by done.
    cbn [take concat]. by rewrite !app_nil_r.
Qed.

(** X1: every node is dispatched at most once in a run.  In a run that
    completes the seven nodes are dispatched, stage after stage; in a run
    that fails, the nodes dispatched are those of the stages up to the stage
    of the node that raised: no node downstream of it is started. *)
Theorem nodes_dispatched_once env sched cv job :
  NoDup (dispatch_log (exec_trace (workflow_invoke env sched cv job))) ∧
  match exec_outcome (workflow_invoke env sched cv job) with
  | Completed =>
      dispatch_log (exec_trace (workflow_invoke env sched cv job))
      = node_names (_build_workflow env)
  | NodeFailed n e =>
      ∃ k active, workflow_stages !! k = Some active ∧ n ∈ active ∧
        dispatch_log (exec_trace (workflow_invoke env sched cv job))
        = concat (take (S k) workflow_stages) ∧
        ∀ d, d ∈ downstream (_build_workflow env) n →
             d ∉ dispatch_log (exec_trace (workflow_invoke env sched cv job))
  | EngineFailed _ => False
  end.
Proof.
  pose proof (stages_spec_dispatch_log _ _ _ _ (workflow_stages_spec env sched cv job))
    as Hlog.
  destruct (exec_outcome (workflow_invoke env sched cv job)) as [|n e|e]; [| |done].
  - rewrite Hlog. split; [compute_done|reflexivity].
  - destruct Hlog as (k & active & Hk & Hn & Hlog). rewrite Hlog. split.
    + destruct k as [|[|[|[|k]]]]; [| | | |done]; compute_done.
    + exists k, active. split_and!; try done.
      intros d Hd Hin.
      destruct (downstream_later _ _ _ _ _ Hk Hn Hd) as (k1 & active1 & Hlt & Hk1 & Hd1).
      destruct k as [|[|[|[|k]]]]; [| | | |done];
        (destruct k1 as [|[|[|[|k1]]]]; [| | | |done]); try lia;
        injection Hk1 as <-; elem_cases Hd1; revert Hin; compute_done.
Qed.

(** ** Failures of the first stage *)







(** ** Running the stages forward *)














Ltac dict_get_inserts :=
  repeat first [ rewrite dict_get_insert_eq | rewrite dict_get_insert_ne by done ].


(** ** Why a run fails *)

Lemma load_documents_Raise env cv job e :
  _load_documents env (initial_state cv job) = Raise e →
  (truthy (path_value cv) = true ∧
   parse_document_of (world env) (path_value cv) = Raise e) ∨
  (loads (world env) cv ∧ truthy (path_value job) = true ∧
   parse_document_of (world env) (path_value job) = Raise e).
Proof.
  unfold _load_documents, dict_getitem, loads.
  rewrite initial_state_cv_file_path, initial_state_job_description_path.
  cbn [mbind result_bind].
  destruct (truthy (path_value cv)) eqn:Htcv.
  - destruct (parse_document_of (world env) (path_value cv)) as [t1|e1] eqn:Hp1;
      cbn [mbind result_bind]; [|intros [= <-]; by left].
    destruct (truthy (path_value job)) eqn:Htjob; [|done].
    destruct (parse_document_of (world env) (path_value job)) as [t2|e2] eqn:Hp2;
      cbn [mbind result_bind]; [done|].
    intros [= <-]. right. split_and!; eauto.
  - cbn [mbind result_bind].
    destruct (truthy (path_value job)) eqn:Htjob; [|done].
    destruct (parse_document_of (world env) (path_value job)) as [t2|e2] eqn:Hp2;
      cbn [mbind result_bind]; [done|].
    intros [= <-]. right. split_and!; eauto.
Qed.

Lemma parse_cv_Raise env s e :
  _parse_cv env s = Raise e →
  (truthy (dict_get s "cv_text") = false ∧ e = ValueError "No CV text available") ∨
  (truthy (dict_get s "cv_text") = true ∧
   cv_parser_parse_cv (agents env) (dict_get s "cv_text") = Raise e).
Proof.
  unfold _parse_cv. destruct (truthy (dict_get s "cv_text")) eqn:Ht; cbn [negb].
  - destruct (cv_parser_parse_cv _ _) as [c|e1] eqn:Hc; [done|].
    cbn [mbind result_bind]. intros [= <-]. by right.
  - intros [= <-]. by left.
Qed.

Lemma analyze_job_Raise env s e :
  _analyze_job env s = Raise e →
  (truthy (dict_get s "job_text") = false ∧
   e = ValueError "No job description text available") ∨
  (truthy (dict_get s "job_text") = true ∧
   job_analyzer_analyze_job (agents env) (dict_get s "job_text") = Raise e).
Proof.
  unfold _analyze_job. destruct (truthy (dict_get s "job_text")) eqn:Ht; cbn [negb].
  - destruct (job_analyzer_analyze_job _ _) as [c|e1] eqn:Hc; [done|].
    cbn [mbind result_bind]. intros [= <-]. by right.
  - intros [= <-]. by left.
Qed.

(** On a state that holds both records, the guard of an evaluator does not
    fire: what the node raises is what its collaborator raised. *)
Lemma match_skills_Raise env s c j e :
  dict_get s "cv_data" = VCVData c → dict_get s "job_description" = VJobDescription j →
  _match_skills env s = Raise e →
  skills_matcher_match_skills (agents env) (VCVData c) (VJobDescription j) = Raise e.
Proof.
  intros Hc Hj. unfold _match_skills. rewrite Hc, Hj. cbn [truthy negb orb].
  destruct (skills_matcher_match_skills _ _ _); [done|].
  cbn [mbind result_bind]. by intros [= <-].
Qed.

Lemma evaluate_experience_Raise env s c j e :
  dict_get s "cv_data" = VCVData c → dict_get s "job_description" = VJobDescription j →
  _evaluate_experience env s = Raise e →
  experience_evaluator_evaluate_experience (agents env) (VCVData c) (VJobDescription j)
  = Raise e.
Proof.
  intros Hc Hj. unfold _evaluate_experience. rewrite Hc, Hj. cbn [truthy negb orb].
  destruct (experience_evaluator_evaluate_experience _ _ _); [done|].
  cbn [mbind result_bind]. by intros [= <-].
Qed.

Lemma assess_culture_fit_Raise env s c j e :
  dict_get s "cv_data" = VCVData c → dict_get s "job_description" = VJobDescription j →
  _assess_culture_fit env s = Raise e →
  culture_fit_assess_culture_fit (agents env) (VCVData c) (VJobDescription j) = Raise e.
Proof.
  intros Hc Hj. unfold _assess_culture_fit. rewrite Hc, Hj. cbn [truthy negb orb].
  destruct (culture_fit_assess_culture_fit _ _ _); [done|].
  cbn [mbind result_bind]. by intros [= <-].
Qed.

Lemma create_final_assessment_Raise env s c j a b d e :
  dict_get s "cv_data" = VCVData c → dict_get s "job_description" = VJobDescription j →
  dict_get s "skill_match" = VSkillMatchResult a →
  dict_get s "experience_evaluation" = VExperienceEvaluation b →
  dict_get s "culture_fit" = VCultureFitAssessment d →
  _create_final_assessment env s = Raise e →
  FinalScorerAgent.create_final_assessment (agents env) c j a b d = Raise e.
Proof.
  intros Hc Hj Ha Hb Hd. unfold _create_final_assessment. cbv zeta.
  rewrite Hc, Hj, Ha, Hb, Hd.
  cbn [forallb truthy andb negb as_cv_data as_job_description as_skill_match
       as_experience_eval as_culture_fit mbind result_bind].
  destruct (FinalScorerAgent.create_final_assessment _ _ _ _ _ _); [done|].
  cbn [mbind result_bind]. by intros [= <-].
Qed.

(** X4: every failure of a run has one of three causes.  [load_documents]
    fails with the error [parse_document] raised for the CV or, when the CV
    was read or skipped, for the job description.  [parse_cv] and
    [analyze_job] fail with their own [ValueError] when the text is missing
    or empty, and otherwise with the error of the extraction.  The guards of
    the three evaluators and of [create_final_assessment] never fire in a
    run: these nodes are dispatched on a state that holds the records they
    read, and when one of them fails the error is the one its collaborator
    raised. *)
Theorem failure_has_a_cause env sched cv job n e :
  exec_outcome (workflow_invoke env sched cv job) = NodeFailed n e →
  failure_cause env cv job (exec_state (workflow_invoke env sched cv job)) n e.
Proof.
  intros Hout.
  destruct (workflow_failed _ _ _ _ _ _ Hout) as (Hn & k & active & Hk & Hin & Hreach).
  unfold failure_cause.
  destruct k as [|[|[|[|k]]]]; [| | | |done]; injection Hk as <-;
    cbn [reached] in Hreach; elem_cases Hin.
  - left. split; [done|]. rewrite run_load_documents, Hreach in Hn.
    by apply load_documents_Raise.
  - right. left. split; [done|]. rewrite run_parse_cv in Hn. by apply parse_cv_Raise.
  - right. right. left. split; [done|]. rewrite run_analyze_job in Hn.
    by apply analyze_job_Raise.
  - destruct Hreach as (s1 & _ & c & j & _ & _ & _ & _ & Hs).
    do 3 right. left. exists c, j. rewrite Hs in *.
    split_and!; [by dict_get_inserts|by dict_get_inserts|].
    left. split; [done|]. rewrite run_match_skills in Hn.
    apply (match_skills_Raise _ _ c j) in Hn; [done|by dict_get_inserts..].
  - destruct Hreach as (s1 & _ & c & j & _ & _ & _ & _ & Hs).
    do 3 right. left. exists c, j. rewrite Hs in *.
    split_and!; [by dict_get_inserts|by dict_get_inserts|].
    right. left. split; [done|]. rewrite run_evaluate_experience in Hn.
    apply (evaluate_experience_Raise _ _ c j) in Hn; [done|by dict_get_inserts..].
  - destruct Hreach as (s1 & _ & c & j & _ & _ & _ & _ & Hs).
    do 3 right. left. exists c, j. rewrite Hs in *.
    split_and!; [by dict_get_inserts|by dict_get_inserts|].
    right. right. split; [done|]. rewrite run_assess_culture_fit in Hn.
    apply (assess_culture_fit_Raise _ _ c j) in Hn; [done|by dict_get_inserts..].
  - destruct Hreach as (s1 & s2 & _ & (c & j & _ & _ & _ & _ & Hs2) &
                        (a & b & d & _ & _ & _ & _ & _ & Hs)).
    do 4 right. split; [done|]. exists c, j, a, b, d. rewrite Hs, Hs2 in *.
    split_and!; try (by dict_get_inserts).
    rewrite run_create_final_assessment in Hn.
    apply (create_final_assessment_Raise _ _ c j a b d) in Hn;
      [done|by dict_get_inserts..].
Qed.

Lemma failure_has_a_cause_witness :
  exec_outcome (workflow_invoke failing_matcher_env in_order (Some "cv.txt") (Some "job.txt"))
    = NodeFailed "match_skills" rate_limited ∧
  failure_cause failing_matcher_env (Some "cv.txt") (Some "job.txt")
    (exec_state (workflow_invoke failing_matcher_env in_order
                   (Some "cv.txt") (Some "job.txt")))
    "match_skills" rate_limited.
Proof.
  assert (Hout : exec_outcome (workflow_invoke failing_matcher_env in_order
                                 (Some "cv.txt") (Some "job.txt"))
                 = NodeFailed "match_skills" rate_limited)
    by (vm_compute; reflexivity).
  split; [exact Hout|].
  exact (failure_has_a_cause failing_matcher_env in_order (Some "cv.txt") (Some "job.txt")
           "match_skills" rate_limited Hout).
Defined.

(** ** The stage a run fails in *)

(** Once a stage has a node that raises, no longer prefix of the stages
    completes. *)
Lemma run_stages_take_stops g stages s k st active n e :
  run_stages g (take k stages) s = (true, st) →
  stages !! k = Some active → n ∈ active → run_node g n st = Raise e →
  ∀ k', k < k' → (run_stages g (take k' stages) s).1 = false.
Proof.
  revert s k. induction stages as [|a stages IH]; intros s k Hrun Hk Hn Hraise k' Hlt.
  - done.
  - destruct k' as [|k']; [lia|]. destruct k as [|k].
    + injection Hk as ->. cbn [take run_stages] in Hrun. injection Hrun as ->.
      cbn [take run_stages]. by rewrite (collect_None _ _ _ _ _ Hn Hraise).
    + cbn [take run_stages] in *.
      destruct (collect g a s) as [outs|]; [|done].
      apply (IH _ k); [done|done|done|done|lia].
Qed.

(** X5: the stage a run fails in does not depend on the order in which the
    concurrent nodes complete.  Two executions over the same references
    with the same collaborators both complete or both fail; when they fail,
    the two nodes they stop on are in the same stage and raised on the same
    state, and when they stop on the same node, it is with the same
    exception. *)
Theorem failing_stage_is_schedule_independent env sched1 sched2 cv job :
  match exec_outcome (workflow_invoke env sched1 cv job),
        exec_outcome (workflow_invoke env sched2 cv job) with
  | Completed, Completed => True
  | NodeFailed n1 e1, NodeFailed n2 e2 =>
      (∃ k active, workflow_stages !! k = Some active ∧ n1 ∈ active ∧ n2 ∈ active) ∧
      exec_state (workflow_invoke env sched1 cv job)
      = exec_state (workflow_invoke env sched2 cv job) ∧
      run_node (_build_workflow env) n1 (exec_state (workflow_invoke env sched1 cv job))
      = Raise e1 ∧
      run_node (_build_workflow env) n2 (exec_state (workflow_invoke env sched1 cv job))
      = Raise e2 ∧
      (n1 = n2 → e1 = e2)
  | _, _ => False
  end.
Proof.
  destruct (workflow_reference env sched1 cv job) as [Hst1 Hout1].
  destruct (workflow_reference env sched2 cv job) as [Hst2 Hout2].
  cbv zeta in *.
  assert (Hst : exec_state (workflow_invoke env sched1 cv job)
                = exec_state (workflow_invoke env sched2 cv job)) by congruence.
  destruct (exec_outcome (workflow_invoke env sched1 cv job)) as [|n1 e1|?];
    destruct (exec_outcome (workflow_invoke env sched2 cv job)) as [|n2 e2|?];
    try done.
  - destruct Hout2 as [Hf _]. congruence.
  - destruct Hout1 as [Hf _]. congruence.
  - destruct Hout1 as (_ & Hn1 & k1 & a1 & Hk1 & Hin1 & Hrun1).
    destruct Hout2 as (_ & Hn2 & k2 & a2 & Hk2 & Hin2 & Hrun2).
    rewrite <- Hst in Hn2, Hrun2.
    assert (k1 = k2) as <-.
    { destruct (Nat.lt_trichotomy k1 k2) as [Hlt|[Heq|Hgt]]; [|done|].
      - pose proof (run_stages_take_stops _ _ _ _ _ _ _ _ Hrun1 Hk1 Hin1 Hn1 k2 Hlt) as Hs.
        rewrite Hrun2 in Hs. done.
      - pose proof (run_stages_take_stops _ _ _ _ _ _ _ _ Hrun2 Hk2 Hin2 Hn2 k1 Hgt) as Hs.
        rewrite Hrun1 in Hs. done. }
    rewrite Hk1 in Hk2. injection Hk2 as <-.
    split_and!; try done.
    + by exists k1, a1.
    + intros <-. congruence.
Qed.

(** The node a run stops on does depend on that order: with two extractions
    that both fail, the run stops on the one that completes first. *)
Lemma failing_node_depends_on_schedule :
  exec_outcome (workflow_invoke failing_both_env in_order (Some "cv.txt") (Some "job.txt"))
    = NodeFailed "parse_cv" extraction_failure ∧
  exec_outcome (workflow_invoke failing_both_env reversed (Some "cv.txt") (Some "job.txt"))
    = NodeFailed "analyze_job" rate_limited.
Proof. split; vm_compute; reflexivity. Qed.

(** ** Documents without text *)


